(** * top.gg scraper: the pagination, fetch and post-processing pipeline

    A shallow embedding of [src/index.js] and the properties of its chunk
    planner ([chunks]), URL builder ([getUrl]), fetch loop ([getServers]) and
    post-processor ([parseServers], [simplify], [compare], [write]).

    Numbers are JavaScript Numbers holding integers; they are modelled as [Z].
    This is exact as long as every value stays a safe integer (magnitude at
    most 2^53), which is the range in which the arithmetic of the source
    ([-=], [+=], [>], [<]) is exact and in which a template literal prints
    plain decimal digits.

    One call of [getServers] is modelled at a time: the variables the source
    leaves undeclared ([chunkList], [skip], [i], [url], [res], [list], [SL],
    [L], [tags], [query]) are globals of the module, threaded here as the
    locals of that one call.  The remote, the JSON codec and the file system
    are parameters ([world]); what a call does to them is recorded as a list
    of events. *)

From Stdlib Require Import Ascii.
From stdpp Require Import base gmap strings list pretty sorting.

Open Scope Z_scope.

(** ** Results of calls *)

(** The error kinds a call can be rejected with.  [NetworkError] is what
    [req2await] rejects with, [ParseError] is the [SyntaxError] of
    [JSON.parse], [IOError] is the [err] handed to the callback of
    [fs.writeFile].  No statement of the source raises [InvalidArgument];
    the constructor only names that kind of failure.  [TypeError] and
    [RangeError] are exceptions of the runtime: the first is thrown by
    [fs.writeFile] when it refuses its arguments, the second by [push] on an
    array that cannot grow any further. *)
Inductive error :=
  | InvalidArgument | NetworkError | ParseError | IOError
  | TypeError | RangeError.

(** What awaiting an [async] function gives: a value, a rejection, or nothing
    at all when something it awaits never settles. *)
Inductive outcome (A : Type) :=
  | Returns (a : A)
  | Rejects (e : error)
  | Hangs.
Arguments Returns {A} a.
Arguments Rejects {A} e.
Arguments Hangs {A}.

(** ** Values and objects *)

(** The JavaScript values that occur in the records of the remote API and in
    the options: [undefined], integer Numbers and strings. *)
Inductive value :=
  | VUndefined
  | VNum (n : Z)
  | VStr (s : string).

(** An object is a finite map from property names to values. *)
Abbreviation object := (gmap string value).

(** Property read [o.k]: a missing property reads as [undefined]. *)
Definition get (o : object) (k : string) : value := default VUndefined (o !! k).

(** *** The relational operators [<] and [>]

    [ToNumber] gives [None] for [NaN].  For strings only the decimal integer
    literals (optionally signed, the empty string being 0) are read as
    numbers; every other string counts as [NaN]. *)
Definition digit_of (c : ascii) : option Z :=
  let n := Z.of_N (N_of_ascii c) in
  if (48 <=? n) && (n <=? 57) then Some (n - 48) else None.

Fixpoint digits_to_Z (s : string) (acc : Z) : option Z :=
  match s with
  | EmptyString => Some acc
  | String c s' =>
      match digit_of c with
      | Some d => digits_to_Z s' (10 * acc + d)
      | None => None
      end
  end.

Definition StringToNumber (s : string) : option Z :=
  match s with
  | EmptyString => Some 0
  | String "-"%char (String _ _ as s') => Z.opp <$> digits_to_Z s' 0
  | String "+"%char (String _ _ as s') => digits_to_Z s' 0
  | _ => digits_to_Z s 0
  end.

Definition ToNumber (v : value) : option Z :=
  match v with
  | VUndefined => None
  | VNum n => Some n
  | VStr s => StringToNumber s
  end.

(** [a < b]: two strings are compared by code units, anything else as
    numbers, and a comparison with [NaN] is false. *)
Definition js_lt (a b : value) : bool :=
  match a, b with
  | VStr s, VStr t => String.ltb s t
  | _, _ =>
      match ToNumber a, ToNumber b with
      | Some x, Some y => x <? y
      | _, _ => false
      end
  end.

(** [a > b]. *)
Definition js_gt (a b : value) : bool := js_lt b a.

(** [a >= b], which is not the negation of [a < b] when [NaN] is involved. *)
Definition js_ge (a b : value) : bool :=
  match a, b with
  | VStr s, VStr t => negb (String.ltb s t)
  | _, _ =>
      match ToNumber a, ToNumber b with
      | Some x, Some y => x >=? y
      | _, _ => false
      end
  end.

(** [x || 0] on a Number and [x || null] on an optional string: zero and the
    empty string are falsy. *)
Definition or_zero (x : Z) : Z := if x =? 0 then 0 else x.

Definition or_null (x : option string) : option string :=
  match x with
  | Some EmptyString => None
  | _ => x
  end.

(** ** Options of [getServers] *)

Module Options.
Record t := { tags : option string; query : option string }.
(** [options = {}] *)
Definition empty : t := {| tags := None; query := None |}.
End Options.

Module Extras.
(** A flag is [true] exactly when the source's [=== true] test passes;
    [file] is [None] when [extras.file != null] fails. *)
Record t := {
  simplify : bool;
  sort : bool;
  filter : bool;
  filterSize : value;
  write : bool;
  file : option string
}.
(** [extras = {}] *)
Definition empty : t :=
  {| simplify := false; sort := false; filter := false;
     filterSize := VUndefined; write := false; file := None |}.
End Extras.

(** ** Chunk planner *)

Definition total (l : list Z) : Z := foldr Z.add 0 l.

(** The [while] loop of [chunks], one iteration per unit of fuel;
    [None] means the fuel ran out before the loop condition became false.
    The arithmetic is that of the source as long as [amount] and [split] are
    safe integers, and the list is the array as long as the runtime can hold
    that many elements. *)
Fixpoint chunks_loop (fuel : nat) (amount split : Z) (chunks : list Z)
  : option (list Z) :=
  match fuel with
  | O => None
  | S fuel' =>
      if amount >? split
      then chunks_loop fuel' (amount - split) split (chunks ++ [split])
      else Some (chunks ++ [amount])
  end.

(** Number of loop tests that suffices whenever the loop stops at all. *)
Definition chunks_fuel (amount split : Z) : nat := S (Z.to_nat (amount / split)).

Definition default_split : Z := 1000.

(** [async function chunks(amount, split = 1000)].  The fuel runs out only
    when the loop condition can never become false ([split <= 0 < amount -
    split]); the loop then pushes until the array cannot grow any further and
    [push] throws, which rejects the call. *)
Definition chunks (amount split : Z) : outcome (list Z) :=
  match chunks_loop (chunks_fuel amount split) amount split [] with
  | Some l => Returns l
  | None => Rejects RangeError
  end.

(** Number of full-size chunks pushed by the loop. *)
Definition full_chunks (amount split : Z) : nat := Z.to_nat ((amount - 1) / split).

(** ** URL builder *)

Record page := { url : string; skip : Z }.

(** [async function getUrl(a, s = 0, t = null, q = null)]. *)
Definition getUrl (a s : Z) (t q : option string) : page :=
  let tags := match t with Some t => "tags=" +:+ t +:+ "&" | None => "" end in
  let query := match q with Some q => "q=" +:+ q +:+ "&" | None => "" end in
  {| url := "https://top.gg/api/client/entities/search?" +:+ query +:+ tags
            +:+ "platform=discord&entityType=server&amount=" +:+ pretty a
            +:+ "&skip=" +:+ pretty s;
     skip := a |}.

(** ** Post-processing: the pure stages *)

(** [async function simplify(json)]: the [for ... in] loop pushes one record
    [{_id: json[s].id, name: json[s].name, members: json[s].memberCount}]
    per element, in index order. *)
Definition simplified (s : object) : object :=
  {[ "_id" := get s "id";
     "name" := get s "name";
     "members" := get s "memberCount" ]}.

Definition simplify (json : list object) : list object :=
  fold_left (fun SL s => SL ++ [simplified s]) json [].

(** [function compare(a, b)]. *)
Definition compare (a b : object) : Z :=
  if js_lt (get a "members") (get b "members") then 1
  else if js_gt (get a "members") (get b "members") then -1
  else 0.

(** [Array.prototype.sort(cmp)] is part of the runtime: a stable sort that
    puts [a] after [b] when [cmp a b > 0].  It is modelled by stable
    insertion, with which every stable sort agrees when [cmp] is a consistent
    comparator on the elements of the array.  When it is not (for [compare],
    on arrays that mix records with and without a number under [members])
    the language leaves the order to the runtime and only the elements of
    the result, not their order, are those of the model. *)
Section ArraySort.
Context {A : Type} (cmp : A -> A -> Z).

Fixpoint sort_insert (x : A) (l : list A) : list A :=
  match l with
  | [] => [x]
  | y :: l' => if cmp x y >? 0 then y :: sort_insert x l' else x :: l
  end.

Definition Array_sort (l : list A) : list A := foldr sort_insert [] l.
End ArraySort.

(** The list [L] that [parseServers] computes before it writes: projection,
    sort and filter, each stage behind its flag.  [SL.sort] sorts in place
    and also reorders [json] when simplify did not run; only the value of
    [L] is modelled. *)
Definition parsed (json : list object) (extras : Extras.t) : list object :=
  let SL := if Extras.simplify extras then simplify json else json in
  let SL := if Extras.sort extras then Array_sort compare SL else SL in
  if Extras.filter extras && js_gt (Extras.filterSize extras) (VNum 0)
  then List.filter
         (fun s => js_gt (get s "members") (Extras.filterSize extras)) SL
  else SL.

(** ** The outside world and the effects of a call *)

(** The collaborators the source calls: the [request] transport behind
    [req2await]; [JSON.parse(res).results] for the replies of the remote,
    which carry an array [results] of records ([Some] of that array, [None]
    when evaluating the expression throws); [JSON.stringify(array, null,
    2)]; and [fs.writeFile(file, data, callback)], which either refuses the
    path and throws at once ([fs_refuses], as for a path that holds a NUL
    character) or takes the call and later hands [err] to its callback
    ([fs_writeFile]). *)
Record world := {
  request : string -> outcome string;
  JSON_parse_results : string -> option (list object);
  JSON_stringify : list object -> string;
  fs_refuses : string -> option error;
  fs_writeFile : string -> string -> option error
}.

(** The same world where the writes that are taken end otherwise. *)
Definition with_writeFile (W : world) (f : string -> string -> option error) : world :=
  {| request := request W;
     JSON_parse_results := JSON_parse_results W;
     JSON_stringify := JSON_stringify W;
     fs_refuses := fs_refuses W;
     fs_writeFile := f |}.

(** What a call does that can be observed from outside. *)
Inductive event :=
  | Requested (url : string)
  | WriteFile (file data : string)
  | ConsoleLog (err : error).

(** A computation takes the events so far and gives its outcome and the
    events extended by its own. *)
Definition M (A : Type) : Type := list event -> outcome A * list event.

Definition ret {A} (a : A) : M A := fun log => (Returns a, log).

Definition bind {A B} (m : M A) (k : A -> M B) : M B :=
  fun log =>
    match m log with
    | (Returns a, log') => k a log'
    | (Rejects e, log') => (Rejects e, log')
    | (Hangs, log') => (Hangs, log')
    end.

Definition lift {A} (o : outcome A) : M A := fun log => (o, log).

Declare Scope js_scope.
Delimit Scope js_scope with js.
Notation "'let*' x ':=' m 'in' k" := (bind m (fun x => k))
  (at level 10, x binder, k at level 200) : js_scope.
Open Scope js_scope.

Section Pipeline.

Variable W : world.

(** [async function req2await(url)]. *)
Definition req2await (url : string) : M string :=
  fun log => (request W url, log ++ [Requested url]).

(** [JSON.parse(res).results], for a reply whose [results] is an array of
    records; an exception of the expression rejects the call. *)
Definition parse_results (res : string) : M (list object) :=
  lift (match JSON_parse_results W res with
        | Some list => Returns list
        | None => Rejects ParseError
        end).

(** [async function write(file, array)]: an exception of [fs.writeFile]
    rejects the call; the callback only logs [err]. *)
Definition write (file : string) (array : list object) : M unit :=
  fun log =>
    let data := JSON_stringify W array in
    match fs_refuses W file with
    | Some e => (Rejects e, log)
    | None =>
        match fs_writeFile W file data with
        | Some err => (Returns tt, log ++ [WriteFile file data; ConsoleLog err])
        | None => (Returns tt, log ++ [WriteFile file data])
        end
    end.

(** [async function parseServers(json, extras)]. *)
Definition parseServers (json : list object) (extras : Extras.t)
  : M (list object) :=
  let L := parsed json extras in
  let* _ := if Extras.write extras
            then match Extras.file extras with
                 | Some file => write file L
                 | None => ret tt
                 end
            else ret tt in
  ret L.

(** The [for (i in chunkList)] loop of [getServers], with the running
    [skip] and [serverList]. *)
Fixpoint fetch_loop (options : Options.t) (chunkList : list Z)
    (skip0 : Z) (serverList : list object) : M (list object) :=
  match chunkList with
  | [] => ret serverList
  | chunk :: rest =>
      let obj := getUrl chunk (or_zero skip0)
                   (or_null (Options.tags options))
                   (or_null (Options.query options)) in
      let skip1 := skip0 + skip obj in
      let* res := req2await (url obj) in
      let* list := parse_results res in
      fetch_loop options rest skip1 (serverList ++ list)
  end.

(** [async function getServers(amount, options = {}, extras = {})],
    exported as [Get]. *)
Definition getServers (amount : Z) (options : Options.t) (extras : Extras.t)
  : M (list object) :=
  let* chunkList := lift (chunks amount default_split) in
  let* serverList := fetch_loop options chunkList 0 [] in
  parseServers serverList extras.

End Pipeline.

(** The URLs requested, in order of issue. *)
Definition requested (log : list event) : list string :=
  omap (fun e => match e with Requested u => Some u | _ => None end) log.

(** The URLs of the pages of [chunkList] when the first one is requested at
    offset [skip0] and each page advances the offset by its size. *)
Fixpoint planned (options : Options.t) (skip0 : Z) (chunkList : list Z)
  : list string :=
  match chunkList with
  | [] => []
  | chunk :: rest =>
      url (getUrl chunk skip0 (or_null (Options.tags options))
             (or_null (Options.query options)))
      :: planned options (skip0 + chunk) rest
  end.

(** ** Vocabulary of the properties *)

(** Every adjacent pair [(x, y)] of the list has [x.members >= y.members]. *)
Definition descending (l : list object) : Prop :=
  forall (i : nat) (x y : object),
    l !! i = Some x -> l !! S i = Some y ->
    js_ge (get x "members") (get y "members") = true.

(** The record carries an integer under the property [k]. *)
Definition numeric (k : string) (o : object) : Prop :=
  exists n, get o k = VNum n.

(** [cmp] lets [x] stand before [y]. *)
Definition before {A : Type} (cmp : A -> A -> Z) (x y : A) : Prop :=
  cmp x y <= 0.

(** Both records carry an integer [members] and the first is at least the
    second. *)
Definition members_ge (x y : object) : Prop :=
  exists m n, get x "members" = VNum m /\ get y "members" = VNum n /\ n <= m.

(** ** Sample data *)

(** A record of the remote API with the three fields every entity has. *)
Definition server (id name : string) (memberCount : Z) : object :=
  {[ "id" := VStr id; "name" := VStr name; "memberCount" := VNum memberCount ]}.

Definition small_server : object := server "1" "small" 50.
Definition large_server : object := server "2" "large" 200.
Definition mid_server : object := server "3" "mid" 150.

(** [{sort: true}] *)
Definition sort_only : Extras.t :=
  {| Extras.simplify := false; Extras.sort := true; Extras.filter := false;
     Extras.filterSize := VUndefined; Extras.write := false;
     Extras.file := None |}.

(** [{filter: true, filterSize: 100}] *)
Definition filter_only : Extras.t :=
  {| Extras.simplify := false; Extras.sort := false; Extras.filter := true;
     Extras.filterSize := VNum 100; Extras.write := false;
     Extras.file := None |}.

(** [{simplify: true}] *)
Definition simplify_only : Extras.t :=
  {| Extras.simplify := true; Extras.sort := false; Extras.filter := false;
     Extras.filterSize := VUndefined; Extras.write := false;
     Extras.file := None |}.

(** [{simplify: true, sort: true, filter: true, filterSize: 100}] *)
Definition scenario_extras : Extras.t :=
  {| Extras.simplify := true; Extras.sort := true; Extras.filter := true;
     Extras.filterSize := VNum 100; Extras.write := false;
     Extras.file := None |}.

(** [{write: true, file: "out.json"}] *)
Definition write_only : Extras.t :=
  {| Extras.simplify := false; Extras.sort := false; Extras.filter := false;
     Extras.filterSize := VUndefined; Extras.write := true;
     Extras.file := Some "out.json" |}.

Definition page_1000_0 : string :=
  "https://top.gg/api/client/entities/search?platform=discord&entityType=server&amount=1000&skip=0".

Definition page_500_1000 : string :=
  "https://top.gg/api/client/entities/search?platform=discord&entityType=server&amount=500&skip=1000".

(** A remote that serves two pages and a file system that always fails. *)
Definition scenario_world : world :=
  {| request := fun u =>
       if String.eqb u page_1000_0 then Returns "first"
       else if String.eqb u page_500_1000 then Returns "second"
       else Rejects NetworkError;
     JSON_parse_results := fun res =>
       if String.eqb res "first" then Some [small_server; large_server]
       else if String.eqb res "second" then Some [mid_server]
       else None;
     JSON_stringify := fun _ => "[]";
     fs_refuses := fun _ => None;
     fs_writeFile := fun _ _ => Some IOError |}.

(** A remote that answers every request with an empty page. *)
Definition empty_world : world :=
  {| request := fun _ => Returns "{}";
     JSON_parse_results := fun _ => Some [];
     JSON_stringify := fun _ => "[]";
     fs_refuses := fun _ => None;
     fs_writeFile := fun _ _ => None |}.

(** ** Vocabulary of the further properties *)

(** What the remote yields for the page at [u]: the [results] of the body
    when both the request and the parse succeed. *)
Definition page_results (W : world) (u : string) : option (list object) :=
  match request W u with
  | Returns res => JSON_parse_results W res
  | _ => None
  end.

(** The list that reaches the sort stage of [parseServers]. *)
Definition projected (json : list object) (extras : Extras.t) : list object :=
  if Extras.simplify extras then simplify json else json.

(** The test that guards the filter stage,
    [extras.filter === true && extras.filterSize > 0]. *)
Definition filter_active (extras : Extras.t) : bool :=
  Extras.filter extras && js_gt (Extras.filterSize extras) (VNum 0).

(** The same extras with one flag cleared. *)
Definition without_sort (extras : Extras.t) : Extras.t :=
  {| Extras.simplify := Extras.simplify extras; Extras.sort := false;
     Extras.filter := Extras.filter extras;
     Extras.filterSize := Extras.filterSize extras;
     Extras.write := Extras.write extras; Extras.file := Extras.file extras |}.

Definition without_filter (extras : Extras.t) : Extras.t :=
  {| Extras.simplify := Extras.simplify extras; Extras.sort := Extras.sort extras;
     Extras.filter := false;
     Extras.filterSize := Extras.filterSize extras;
     Extras.write := Extras.write extras; Extras.file := Extras.file extras |}.

(** The exception, if any, with which the persist stage ends: that of
    [fs.writeFile] refusing [extras.file], when
    [extras.write === true && extras.file != null]. *)
Definition write_refused (W : world) (extras : Extras.t) : option error :=
  if Extras.write extras
  then match Extras.file extras with
       | Some file => fs_refuses W file
       | None => None
       end
  else None.

(** The events of the persist stage for the list [L]: nothing unless
    [extras.write === true && extras.file != null] and the path is taken,
    else the write and, when it fails, the logged error. *)
Definition write_events (W : world) (extras : Extras.t) (L : list object)
  : list event :=
  if Extras.write extras
  then match Extras.file extras with
       | Some file =>
           match fs_refuses W file with
           | Some _ => []
           | None =>
               WriteFile file (JSON_stringify W L)
               :: match fs_writeFile W file (JSON_stringify W L) with
                  | Some err => [ConsoleLog err]
                  | None => []
                  end
           end
       | None => []
       end
  else [].

(** The string holds a NUL character. *)
Fixpoint has_nul (s : string) : bool :=
  match s with
  | EmptyString => false
  | String c s' => Ascii.eqb c "000" || has_nul s'
  end.

(** A path with a NUL character in it. *)
Definition nul_path : string := String "000" "out.json".

(** [{write: true, file: nul_path}] *)
Definition nul_file : Extras.t :=
  {| Extras.simplify := false; Extras.sort := false; Extras.filter := false;
     Extras.filterSize := VUndefined; Extras.write := true;
     Extras.file := Some nul_path |}.

(** A remote that answers every request with an empty page and a file
    system that refuses, with a [TypeError], every path that holds a NUL
    character and writes to all others. *)
Definition strict_world : world :=
  {| request := fun _ => Returns "{}";
     JSON_parse_results := fun _ => Some [];
     JSON_stringify := fun _ => "[]";
     fs_refuses := fun file => if has_nul file then Some TypeError else None;
     fs_writeFile := fun _ _ => None |}.

(** The integers that a Number holds exactly. *)
Definition safe_integer (z : Z) : Prop :=
  - 9007199254740991 <= z <= 9007199254740991.

(** A number of elements that an array of the runtime holds. *)
Definition array_room : Z := 67108864.

(** [{simplify: true, sort: true}] *)
Definition simplify_and_sort : Extras.t :=
  {| Extras.simplify := true; Extras.sort := true; Extras.filter := false;
     Extras.filterSize := VUndefined; Extras.write := false;
     Extras.file := None |}.

Definition twin_server : object := server "4" "twin" 50.

#[global] Instance value_eq_dec : EqDecision value.
Proof. solve_decision. Defined.

(** The record has the value [v] under [members]. *)
Definition has_members (v : value) (r : object) : bool :=
  bool_decide (get r "members" = v).

(** The string holds no ampersand. *)
Fixpoint no_amp (s : string) : bool :=
  match s with
  | EmptyString => true
  | String c s' => negb (Ascii.eqb c "&") && no_amp s'
  end.

(** Every chunk but the last is positive. *)
Definition inner_positive (chunkList : list Z) : Prop :=
  forall (i : nat) (c : Z),
    chunkList !! i = Some c -> (S i < length chunkList)%nat -> 0 < c.

(** [{filter: true}], without a [filterSize] *)
Definition filter_unsized : Extras.t :=
  {| Extras.simplify := false; Extras.sort := false; Extras.filter := true;
     Extras.filterSize := VUndefined; Extras.write := false;
     Extras.file := None |}.

(** [{tags: "", query: ""}] *)
Definition blank_options : Options.t :=
  {| Options.tags := Some ""; Options.query := Some "" |}.

(** A remote whose second page never answers. *)
Definition stalled_world : world :=
  {| request := fun u =>
       if String.eqb u page_1000_0 then Returns "first" else Hangs;
     JSON_parse_results := fun res =>
       if String.eqb res "first" then Some [small_server; large_server]
       else None;
     JSON_stringify := fun _ => "[]";
     fs_refuses := fun _ => None;
     fs_writeFile := fun _ _ => None |}.

(** ** Properties of the chunk planner *)

Section ChunkPlanner.

Variable split : Z.
Hypothesis split_pos : 0 < split.

Lemma div_sub_split amount : (amount - split) / split = amount / split - 1.
Proof.
  replace (amount - split) with (amount + (-1) * split) by lia.
  rewrite Z.div_add by lia. lia.
Qed.

Lemma chunks_loop_closed fuel : forall amount acc,
  (Z.to_nat (amount / split) < fuel)%nat ->
  chunks_loop fuel amount split acc =
    Some (acc ++ replicate (full_chunks amount split) split
              ++ [amount - Z.of_nat (full_chunks amount split) * split]).
Proof.
  induction fuel as [|fuel IH]; intros amount acc Hfuel; [lia|].
  cbn [chunks_loop]. destruct (Z.gtb_spec amount split) as [Hgt|Hle].
  - assert (Hq : 1 <= amount / split)
      by (apply Z.div_le_lower_bound; lia).
    assert (Hk : 1 <= (amount - 1) / split)
      by (apply Z.div_le_lower_bound; lia).
    rewrite IH by (rewrite div_sub_split; lia).
    unfold full_chunks.
    replace (amount - split - 1) with (amount - 1 - split) by lia.
    rewrite div_sub_split.
    remember (Z.to_nat ((amount - 1) / split - 1)) as k eqn:Ek.
    replace (Z.to_nat ((amount - 1) / split)) with (S k) by lia.
    cbn [replicate]. rewrite <- app_assoc. cbn [app].
    replace (amount - Z.of_nat (S k) * split)
      with (amount - split - Z.of_nat k * split) by lia.
    reflexivity.
  - assert (Hk : (amount - 1) / split <= 0).
    { destruct (Z.le_gt_cases 0 (amount - 1)) as [H0|H0].
      - rewrite Z.div_small by lia. lia.
      - pose proof (Z.div_lt_upper_bound (amount - 1) split 0); lia. }
    unfold full_chunks.
    replace (Z.to_nat ((amount - 1) / split)) with 0%nat by lia.
    cbn [replicate app].
    replace (amount - Z.of_nat 0 * split) with amount by lia.
    reflexivity.
Qed.

Lemma chunks_closed amount :
  chunks amount split =
    Returns (replicate (full_chunks amount split) split
               ++ [amount - Z.of_nat (full_chunks amount split) * split]).
Proof.
  unfold chunks, chunks_fuel.
  rewrite chunks_loop_closed by lia. reflexivity.
Qed.

(** More fuel than [chunks_fuel] never changes the result. *)
Lemma chunks_loop_enough fuel amount :
  (chunks_fuel amount split <= fuel)%nat ->
  Returns <$> chunks_loop fuel amount split [] = Some (chunks amount split).
Proof.
  intros Hfuel. rewrite chunks_closed.
  rewrite chunks_loop_closed by (unfold chunks_fuel in Hfuel; lia).
  reflexivity.
Qed.

End ChunkPlanner.

(** With a split that is not positive the loop of the source never stops
    once it is entered: no amount of fuel yields a result. *)
Lemma chunks_loop_diverges split fuel : forall amount acc,
  split <= 0 -> amount > split -> chunks_loop fuel amount split acc = None.
Proof.
  induction fuel as [|fuel IH]; intros amount acc Hs Hgt; [reflexivity|].
  cbn [chunks_loop]. destruct (Z.gtb_spec amount split); [|lia].
  apply IH; lia.
Qed.

(** [chunks] is rejected exactly when the loop condition never becomes
    false. *)
Lemma chunks_rejects_iff amount split e :
  chunks amount split = Rejects e <->
  e = RangeError /\ split <= 0 /\ split < amount.
Proof.
  split.
  - intros Hhang.
    assert (He : e = RangeError).
    { unfold chunks in Hhang.
      destruct (chunks_loop _ _ _ _); [discriminate | congruence]. }
    subst e. split; [reflexivity|]. destruct (Z.lt_ge_cases 0 split) as [Hpos|Hnpos].
    + rewrite chunks_closed in Hhang by exact Hpos. discriminate.
    + split; [exact Hnpos|]. destruct (Z.lt_ge_cases split amount) as [|Hle];
        [assumption|].
      unfold chunks, chunks_fuel in Hhang. cbn [chunks_loop] in Hhang.
      destruct (Z.gtb_spec amount split); [lia | discriminate].
  - intros (-> & Hs & Hgt). unfold chunks.
    rewrite chunks_loop_diverges by lia. reflexivity.
Qed.

Lemma total_app l1 l2 : total (l1 ++ l2) = total l1 + total l2.
Proof.
  induction l1 as [|x l1 IH]; cbn; [reflexivity|].
  fold (total (l1 ++ l2)) (total l1). lia.
Qed.

Lemma total_replicate n x : total (replicate n x) = Z.of_nat n * x.
Proof.
  induction n as [|n IH]; [reflexivity|].
  cbn [replicate total foldr]. fold (total (replicate n x)). lia.
Qed.

Lemma Forall_replicate_same (P : Z -> Prop) n x : P x -> Forall P (replicate n x).
Proof. intros Hx. induction n; constructor; auto. Qed.

(** C1: for every non-negative integer [totalCount], [chunks totalCount]
    with the default page cap of 1000 returns, and the chunks it returns sum
    exactly to [totalCount]. *)
Theorem chunks_sum_total (totalCount : Z) :
  0 <= totalCount ->
  exists l, chunks totalCount default_split = Returns l /\ total l = totalCount.
Proof.
  intros _. eexists. split.
  - apply chunks_closed. reflexivity.
  - rewrite total_app, total_replicate. cbn. lia.
Qed.

Lemma chunks_sum_total_witness :
  0 <= 2500 /\
  exists l, chunks 2500 default_split = Returns l /\ total l = 2500.
Proof. split; [lia | apply (chunks_sum_total 2500); lia]. Defined.

(** C2 as stated fails: for [totalCount = 2000] and [pageCap = 1000] the
    planner does not return [[1000; 1000; 0]]. *)
Lemma chunks_2000_no_trailing_zero :
  chunks 2000 1000 <> Returns [1000; 1000; 0].
Proof. vm_compute. discriminate. Qed.

(** C2, amended: for [totalCount = 2000] and [pageCap = 1000] the planner
    returns [[1000; 1000]]; whenever [totalCount] is an exact non-zero
    multiple [k * 1000] of the page cap it returns [k] chunks of 1000, the
    last one being the page cap itself, and no zero-size chunk. *)
Theorem chunks_exact_multiple :
  chunks 2000 1000 = Returns [1000; 1000] /\
  forall k : Z, 0 < k ->
    chunks (k * 1000) 1000 = Returns (replicate (Z.to_nat k) 1000) /\
    0 ∉ replicate (Z.to_nat k) 1000.
Proof.
  split; [reflexivity|]. intros k Hk. split.
  - rewrite chunks_closed by reflexivity. unfold full_chunks.
    assert (Hq : (k * 1000 - 1) / 1000 = k - 1).
    { replace (k * 1000 - 1) with (999 + (k - 1) * 1000) by lia.
      rewrite Z.div_add by lia. reflexivity. }
    rewrite Hq. replace (Z.to_nat k) with (Z.to_nat (k - 1) + 1)%nat by lia.
    rewrite replicate_add. cbn [replicate]. do 3 f_equal. lia.
  - intros Hin. apply elem_of_replicate in Hin. lia.
Qed.

Lemma chunks_exact_multiple_witness :
  0 < 2 /\
  chunks (2 * 1000) 1000 = Returns (replicate (Z.to_nat 2) 1000) /\
  0 ∉ replicate (Z.to_nat 2) 1000.
Proof. split; [lia | apply (proj2 chunks_exact_multiple 2); lia]. Defined.

(** ** Properties of the fetch loop *)

Lemma or_zero_id x : or_zero x = x.
Proof. unfold or_zero. destruct (Z.eqb_spec x 0); congruence. Qed.

Lemma requested_app l1 l2 : requested (l1 ++ l2) = requested l1 ++ requested l2.
Proof. apply omap_app. Qed.

Lemma planned_lookup options : forall chunkList skip0 i u,
  planned options skip0 chunkList !! i = Some u ->
  exists c, chunkList !! i = Some c /\
    u = url (getUrl c (skip0 + total (take i chunkList))
               (or_null (Options.tags options))
               (or_null (Options.query options))).
Proof.
  induction chunkList as [|c rest IH]; intros skip0 i u Hi; [discriminate|].
  destruct i as [|i]; cbn in Hi.
  - exists c. split; [reflexivity|]. cbn. rewrite Z.add_0_r. congruence.
  - destruct (IH _ _ _ Hi) as (c' & Hc' & ->). exists c'. split; [exact Hc'|].
    cbn [take total foldr]. fold (total (take i rest)).
    f_equal. f_equal. lia.
Qed.

Lemma planned_length options : forall chunkList skip0,
  length (planned options skip0 chunkList) = length chunkList.
Proof. induction chunkList; intros; cbn; auto. Qed.

Section Fetch.

Variable W : world.
Variable options : Options.t.

(** One iteration of the loop. *)
Lemma fetch_loop_cons c rest skip0 serverList log :
  fetch_loop W options (c :: rest) skip0 serverList log =
    let u := url (getUrl c skip0 (or_null (Options.tags options))
                    (or_null (Options.query options))) in
    match request W u with
    | Returns res =>
        match JSON_parse_results W res with
        | Some results =>
            fetch_loop W options rest (skip0 + c) (serverList ++ results)
              (log ++ [Requested u])
        | None => (Rejects ParseError, log ++ [Requested u])
        end
    | Rejects e => (Rejects e, log ++ [Requested u])
    | Hangs => (Hangs, log ++ [Requested u])
    end.
Proof.
  cbn [fetch_loop]. rewrite or_zero_id.
  unfold bind, req2await, parse_results, lift. cbv zeta.
  destruct (request W _) as [res|e|]; try reflexivity.
  destruct (JSON_parse_results W res); reflexivity.
Qed.

(** The requests of the loop are the planned ones, up to the first page
    that fails, and all of them when the loop returns. *)
Lemma fetch_loop_requested : forall chunkList skip0 serverList log,
  exists n : nat,
    (n <= length chunkList)%nat /\
    requested (snd (fetch_loop W options chunkList skip0 serverList log))
      = requested log ++ take n (planned options skip0 chunkList) /\
    (forall l, fst (fetch_loop W options chunkList skip0 serverList log)
                 = Returns l -> n = length chunkList).
Proof.
  induction chunkList as [|c rest IH]; intros skip0 serverList log.
  - exists 0%nat. cbn. rewrite app_nil_r. auto.
  - rewrite fetch_loop_cons. cbn [planned]. cbv zeta.
    set (u := url (getUrl c skip0 _ _)).
    assert (Hone : requested (log ++ [Requested u])
                   = requested log ++ take 1 (u :: planned options (skip0 + c) rest)).
    { rewrite requested_app. reflexivity. }
    destruct (request W u) as [res|e|].
    + destruct (JSON_parse_results W res) as [results|].
      * destruct (IH (skip0 + c) (serverList ++ results) (log ++ [Requested u]))
          as (n & Hn & Hreq & Hret).
        exists (S n). split; [cbn; lia|]. split.
        -- rewrite Hreq, requested_app. cbn. rewrite <- app_assoc. reflexivity.
        -- intros l Hl. cbn [length]. f_equal. exact (Hret l Hl).
      * exists 1%nat. cbn [fst snd length]. split; [lia|]. split; [exact Hone|].
        discriminate.
    + exists 1%nat. cbn [fst snd length]. split; [lia|]. split; [exact Hone|].
      discriminate.
    + exists 1%nat. cbn [fst snd length]. split; [lia|]. split; [exact Hone|].
      discriminate.
Qed.

(** Post-processing issues no request. *)
Lemma parseServers_requested json extras log :
  requested (snd (parseServers W json extras log)) = requested log.
Proof.
  unfold parseServers, bind, ret, write. cbv zeta.
  destruct (Extras.write extras); [|reflexivity].
  destruct (Extras.file extras) as [file|]; [|reflexivity].
  destruct (fs_refuses W file); [reflexivity|].
  destruct (fs_writeFile W file _); cbn [snd];
    rewrite requested_app; cbn; apply app_nil_r.
Qed.

Lemma getServers_requested amount extras log :
  exists (chunkList : list Z) (n : nat),
    chunks amount default_split = Returns chunkList /\
    (n <= length chunkList)%nat /\
    requested (snd (getServers W amount options extras log))
      = requested log ++ take n (planned options 0 chunkList) /\
    (forall l, fst (getServers W amount options extras log) = Returns l ->
               n = length chunkList).
Proof.
  pose proof (chunks_closed default_split eq_refl amount) as Hch.
  set (chunkList := replicate _ _ ++ _) in Hch.
  exists chunkList.
  destruct (fetch_loop_requested chunkList 0 [] log) as (n & Hn & Hreq & Hret).
  exists n. split; [exact Hch|]. split; [exact Hn|].
  unfold getServers. rewrite Hch. unfold bind, lift.
  destruct (fetch_loop W options chunkList 0 [] log) as [[l|e|] log'];
    cbn [fst snd] in *.
  - rewrite parseServers_requested. split; [exact Hreq|].
    intros _ _. eauto.
  - split; [exact Hreq | discriminate].
  - split; [exact Hreq | discriminate].
Qed.

End Fetch.

(** C10: for every [totalCount > 0] the planner returns exactly
    [ceil (totalCount / 1000)] chunks, each between 1 and 1000 inclusive;
    when [totalCount] is a multiple of 1000 the last chunk is 1000 and no
    chunk is zero, so every request of [getServers] asks for an amount
    between 1 and 1000. *)
Theorem chunks_count_and_bounds (totalCount : Z) :
  0 < totalCount ->
  exists l,
    chunks totalCount default_split = Returns l /\
    Z.of_nat (length l) = (totalCount + 999) / 1000 /\
    Forall (fun c => 1 <= c <= 1000) l /\
    (totalCount mod 1000 = 0 -> last l = Some 1000) /\
    (0 ∉ l) /\
    forall (W : world) (options : Options.t) (extras : Extras.t)
           (i : nat) (u : string),
      requested (snd (getServers W totalCount options extras [])) !! i = Some u ->
      exists c s,
        1 <= c <= 1000 /\
        u = url (getUrl c s (or_null (Options.tags options))
                   (or_null (Options.query options))).
Proof.
  intros Hpos.
  pose proof (chunks_closed default_split eq_refl totalCount) as Hch.
  eexists. split; [exact Hch|]. revert Hch.
  unfold default_split, full_chunks.
  assert (Hq0 : 0 <= (totalCount - 1) / 1000) by (apply Z.div_pos; lia).
  pose proof (Z.div_mod (totalCount - 1) 1000 ltac:(lia)) as Hdm.
  pose proof (Z.mod_pos_bound (totalCount - 1) 1000 ltac:(lia)) as Hmod.
  set (q := (totalCount - 1) / 1000) in *.
  assert (Hlast : 1 <= totalCount - Z.of_nat (Z.to_nat q) * 1000 <= 1000) by lia.
  assert (Hall : Forall (fun c => 1 <= c <= 1000)
                   (replicate (Z.to_nat q) 1000
                      ++ [totalCount - Z.of_nat (Z.to_nat q) * 1000])).
  { apply Forall_app. split; [apply Forall_replicate_same; lia|].
    constructor; [exact Hlast | constructor]. }
  intros Hch. split; [|split; [|split; [|split]]].
  - rewrite length_app, length_replicate. cbn [length].
    replace (totalCount + 999) with (totalCount - 1 + 1 * 1000) by lia.
    rewrite Z.div_add by lia. fold q. lia.
  - exact Hall.
  - intros Hm. rewrite last_snoc. f_equal.
    pose proof (Z.div_mod totalCount 1000 ltac:(lia)) as Hdm'.
    rewrite Hm in Hdm'.
    assert (totalCount - 1 = 1000 * (totalCount / 1000 - 1) + 999) by lia.
    assert (q = totalCount / 1000 - 1).
    { unfold q. symmetry. apply (Z.div_unique _ _ _ 999); lia. }
    lia.
  - intros Hin. rewrite Forall_forall in Hall. apply Hall in Hin. lia.
  - intros W options extras i u Hi.
    destruct (getServers_requested W options totalCount extras [])
      as (chunkList & n & Hch' & _ & Hreq & _).
    unfold default_split in Hch'. rewrite Hch in Hch'. injection Hch' as <-.
    rewrite Hreq in Hi. cbn [requested omap app] in Hi.
    apply lookup_take_Some in Hi as [Hi _].
    apply planned_lookup in Hi as (c & Hc & ->). exists c. eexists.
    split; [|reflexivity].
    rewrite Forall_forall in Hall. apply Hall.
    by eapply list_elem_of_lookup_2.
Qed.

Lemma chunks_count_and_bounds_witness :
  0 < 3000 /\
  exists l,
    chunks 3000 default_split = Returns l /\
    Z.of_nat (length l) = (3000 + 999) / 1000 /\
    Forall (fun c => 1 <= c <= 1000) l /\
    (3000 mod 1000 = 0 -> last l = Some 1000) /\
    (0 ∉ l) /\
    forall (W : world) (options : Options.t) (extras : Extras.t)
           (i : nat) (u : string),
      requested (snd (getServers W 3000 options extras [])) !! i = Some u ->
      exists c s,
        1 <= c <= 1000 /\
        u = url (getUrl c s (or_null (Options.tags options))
                   (or_null (Options.query options))).
Proof. split; [lia | apply (chunks_count_and_bounds 3000); lia]. Defined.

(** C8: in a call of [getServers] the skip offset starts at 0 and the
    [i]-th request carries as its skip parameter the sum of the sizes of all
    earlier chunks, the URL builder reporting the chunk size as the amount
    to advance by. *)
Theorem fetch_skip_is_sum_of_earlier_chunks
    (W : world) (amount : Z) (options : Options.t) (extras : Extras.t)
    (chunkList : list Z) (i : nat) (u : string) :
  chunks amount default_split = Returns chunkList ->
  requested (snd (getServers W amount options extras [])) !! i = Some u ->
  exists c,
    chunkList !! i = Some c /\
    (forall s t q, skip (getUrl c s t q) = c) /\
    u = url (getUrl c (total (take i chunkList))
               (or_null (Options.tags options))
               (or_null (Options.query options))) /\
    (i = 0%nat -> total (take i chunkList) = 0).
Proof.
  intros Hchunks Hi.
  destruct (getServers_requested W options amount extras [])
    as (chunkList' & n & Hch & Hn & Hreq & _).
  assert (chunkList' = chunkList) as -> by congruence.
  rewrite Hreq in Hi. cbn [requested omap app] in Hi.
  apply lookup_take_Some in Hi as [Hi _].
  apply planned_lookup in Hi as (c & Hc & ->). exists c.
  split; [exact Hc|]. split; [reflexivity|]. split.
  - rewrite Z.add_0_l. reflexivity.
  - intros ->. reflexivity.
Qed.

Lemma fetch_skip_is_sum_of_earlier_chunks_witness :
  (chunks 1500 default_split = Returns [1000; 500] /\
   requested (snd (getServers scenario_world 1500 Options.empty Extras.empty []))
     !! 1%nat = Some page_500_1000) /\
  exists c,
    [1000; 500] !! 1%nat = Some c /\
    (forall s t q, skip (getUrl c s t q) = c) /\
    page_500_1000 = url (getUrl c (total (take 1 [1000; 500])) None None) /\
    (1%nat = 0%nat -> total (take 1 [1000; 500]) = 0).
Proof.
  split; [split; reflexivity|].
  apply (fetch_skip_is_sum_of_earlier_chunks
           scenario_world 1500 Options.empty Extras.empty [1000; 500] 1 page_500_1000);
    reflexivity.
Defined.

(** C4 as stated fails: for the negative amount [-5] the planner returns a
    chunk sequence and [Get] returns a list; neither is rejected with
    [InvalidArgument]. *)
Lemma negative_amount_is_not_rejected :
  chunks (-5) default_split = Returns [-5] /\
  chunks (-5) default_split <> Rejects InvalidArgument /\
  fst (getServers empty_world (-5) Options.empty Extras.empty []) = Returns [] /\
  fst (getServers empty_world (-5) Options.empty Extras.empty [])
    <> Rejects InvalidArgument.
Proof. vm_compute. repeat split; discriminate. Qed.

(** C4, amended: for every negative [totalCount] the planner does not fail
    but returns the single chunk [[totalCount]], and [Get] with a negative
    amount issues exactly one request, carrying that amount and skip 0. *)
Theorem chunks_negative_single_chunk (totalCount : Z) :
  totalCount < 0 ->
  chunks totalCount default_split = Returns [totalCount] /\
  forall (W : world) (options : Options.t) (extras : Extras.t),
    requested (snd (getServers W totalCount options extras []))
      = [url (getUrl totalCount 0 (or_null (Options.tags options))
                (or_null (Options.query options)))].
Proof.
  intros Hneg.
  assert (Hch : chunks totalCount default_split = Returns [totalCount]).
  { rewrite chunks_closed by reflexivity. unfold full_chunks, default_split.
    assert ((totalCount - 1) / 1000 < 0)
      by (apply Z.div_lt_upper_bound; lia).
    replace (Z.to_nat ((totalCount - 1) / 1000)) with 0%nat by lia.
    cbn [replicate app]. do 2 f_equal. lia. }
  split; [exact Hch|]. intros W options extras.
  unfold getServers. rewrite Hch. unfold bind, lift.
  rewrite fetch_loop_cons. cbv zeta.
  destruct (request W _) as [res|e|]; [|reflexivity..].
  destruct (JSON_parse_results W res) as [results|]; [|reflexivity].
  cbn [fetch_loop]. unfold ret at 1. rewrite parseServers_requested.
  reflexivity.
Qed.

Lemma chunks_negative_single_chunk_witness :
  -5 < 0 /\
  chunks (-5) default_split = Returns [-5] /\
  forall (W : world) (options : Options.t) (extras : Extras.t),
    requested (snd (getServers W (-5) options extras []))
      = [url (getUrl (-5) 0 (or_null (Options.tags options))
                (or_null (Options.query options)))].
Proof. split; [lia | apply (chunks_negative_single_chunk (-5)); lia]. Defined.

(** ** Properties of the runtime sort *)

Section ArraySortFacts.

Context {A : Type} (cmp : A -> A -> Z).

(** The comparator never asks for both orders of a pair. *)
Hypothesis cmp_asym : forall x y, cmp x y > 0 -> cmp y x <= 0.

Lemma sort_insert_perm x l : sort_insert cmp x l ≡ₚ x :: l.
Proof.
  induction l as [|y l IH]; cbn; [reflexivity|].
  destruct (cmp x y >? 0); [|reflexivity].
  rewrite IH. apply Permutation_swap.
Qed.

Lemma Array_sort_perm l : Array_sort cmp l ≡ₚ l.
Proof.
  induction l as [|x l IH]; cbn; [reflexivity|].
  rewrite sort_insert_perm. by rewrite IH.
Qed.

Lemma sort_insert_HdRel x y l :
  before cmp y x -> HdRel (before cmp) y l -> HdRel (before cmp) y (sort_insert cmp x l).
Proof.
  intros Hyx Hl. destruct l as [|z l]; cbn; [by constructor|].
  destruct (cmp x z >? 0); constructor; [|exact Hyx].
  by apply HdRel_inv in Hl.
Qed.

Lemma sort_insert_Sorted x l :
  Sorted (before cmp) l -> Sorted (before cmp) (sort_insert cmp x l).
Proof.
  induction l as [|y l IH]; intros Hl; cbn.
  - repeat constructor.
  - apply Sorted_inv in Hl as [Hl Hy].
    destruct (Z.gtb_spec (cmp x y) 0) as [Hgt|Hle].
    + constructor; [by apply IH|].
      apply sort_insert_HdRel; [|exact Hy]. apply cmp_asym. lia.
    + constructor; [by constructor|]. constructor. exact Hle.
Qed.

Lemma Array_sort_Sorted l : Sorted (before cmp) (Array_sort cmp l).
Proof.
  induction l as [|x l IH]; cbn; [constructor|].
  by apply sort_insert_Sorted.
Qed.

(** A comparator that finds every pair equal leaves the array as it is. *)
Lemma Array_sort_all_equal l :
  (forall x y, x ∈ l -> y ∈ l -> cmp x y = 0) -> Array_sort cmp l = l.
Proof.
  induction l as [|x l IH]; intros Heq; [reflexivity|].
  change (Array_sort cmp (x :: l)) with (sort_insert cmp x (Array_sort cmp l)).
  rewrite IH by (intros; apply Heq; by constructor).
  destruct l as [|y l]; cbn; [reflexivity|].
  rewrite Heq by (repeat constructor). reflexivity.
Qed.

End ArraySortFacts.

(** ** Properties of the comparison operators and of [compare] *)

Lemma js_lt_asym a b : js_lt a b = true -> js_lt b a = false.
Proof.
  unfold js_lt. destruct a as [|m|s], b as [|n|t]; cbn; try discriminate;
    repeat (match goal with
            | |- context [StringToNumber ?s] => destruct (StringToNumber s)
            end; cbn); try discriminate; try lia.
  unfold String.ltb. rewrite (String.compare_antisym t s).
  destruct (String.compare s t); cbn; congruence.
Qed.

Lemma compare_asym x y : compare x y > 0 -> compare y x <= 0.
Proof.
  unfold compare, js_gt.
  destruct (js_lt (get x "members") (get y "members")) eqn:Hxy.
  - rewrite (js_lt_asym _ _ Hxy). lia.
  - destruct (js_lt (get y "members") (get x "members")); lia.
Qed.

Lemma compare_numeric x y m n :
  get x "members" = VNum m -> get y "members" = VNum n ->
  compare x y <= 0 -> n <= m.
Proof.
  unfold compare, js_gt, js_lt. intros -> ->. cbn.
  destruct (Z.ltb_spec m n); [lia|]. lia.
Qed.

Lemma compare_undefined x y :
  get x "members" = VUndefined -> compare x y = 0.
Proof.
  unfold compare, js_gt, js_lt. intros ->. cbn.
  destruct (get y "members") as [|n|s]; cbn; try reflexivity.
  destruct (StringToNumber s); reflexivity.
Qed.

(** ** Properties of [simplify] *)

Lemma simplify_loop (json acc : list object) :
  fold_left (fun SL s => SL ++ [simplified s]) json acc
    = acc ++ map simplified json.
Proof.
  revert acc. induction json as [|s json IH]; intros acc; cbn.
  - by rewrite app_nil_r.
  - rewrite IH, <- app_assoc. reflexivity.
Qed.

Lemma simplify_map json : simplify json = map simplified json.
Proof. unfold simplify. by rewrite simplify_loop. Qed.

Lemma simplified_dom s : dom (simplified s) = {[ "_id"; "name"; "members" ]}.
Proof.
  unfold simplified. rewrite !dom_insert_L, dom_singleton_L. set_solver.
Qed.

Lemma simplified_members s : get (simplified s) "members" = get s "memberCount".
Proof. reflexivity. Qed.

(** C6: with simplify enabled the projection stage keeps length and order,
    and the record at every index has exactly the keys [_id], [name] and
    [members], holding the [id], [name] and [memberCount] of the entity at
    that index. *)
Theorem simplify_projects
    (W : world) (json : list object) (i : nat) (s : object) (log : list event) :
  json !! i = Some s ->
  fst (parseServers W json simplify_only log) = Returns (simplify json) /\
  length (simplify json) = length json /\
  exists r,
    simplify json !! i = Some r /\
    dom r = {[ "_id"; "name"; "members" ]} /\
    r !! "_id" = Some (get s "id") /\
    r !! "name" = Some (get s "name") /\
    r !! "members" = Some (get s "memberCount").
Proof.
  intros Hi. split; [reflexivity|]. rewrite simplify_map. split.
  - apply length_map.
  - exists (simplified s). split.
    + rewrite list_lookup_fmap. by rewrite Hi.
    + split; [apply simplified_dom|]. repeat split.
Qed.

Lemma simplify_projects_witness :
  [small_server; large_server] !! 1%nat = Some large_server /\
  fst (parseServers scenario_world [small_server; large_server] simplify_only [])
    = Returns (simplify [small_server; large_server]) /\
  length (simplify [small_server; large_server])
    = length [small_server; large_server] /\
  exists r,
    simplify [small_server; large_server] !! 1%nat = Some r /\
    dom r = {[ "_id"; "name"; "members" ]} /\
    r !! "_id" = Some (get large_server "id") /\
    r !! "name" = Some (get large_server "name") /\
    r !! "members" = Some (get large_server "memberCount").
Proof.
  split; [reflexivity|].
  apply (simplify_projects scenario_world [small_server; large_server] 1
           large_server []).
  reflexivity.
Defined.

(** ** Properties of the post-processor *)

Section PostProcessor.

Variable W : world.

Lemma parseServers_returns json extras log :
  write_refused W extras = None ->
  fst (parseServers W json extras log) = Returns (parsed json extras).
Proof.
  unfold parseServers, bind, ret, write, write_refused. cbv zeta.
  destruct (Extras.write extras); [|reflexivity].
  destruct (Extras.file extras) as [file|]; [|reflexivity].
  intros ->. destruct (fs_writeFile W file _); reflexivity.
Qed.

(** The outcome of [parseServers] does not depend on how the writes that
    are taken end. *)
Lemma parseServers_with_writeFile f json extras log :
  fst (parseServers (with_writeFile W f) json extras log)
    = fst (parseServers W json extras log).
Proof.
  unfold parseServers, bind, ret, write. cbv zeta.
  destruct (Extras.write extras); [|reflexivity].
  destruct (Extras.file extras) as [file|]; [|reflexivity].
  cbn [fs_refuses fs_writeFile JSON_stringify with_writeFile].
  destruct (fs_refuses W file); [reflexivity|].
  destruct (f file _), (fs_writeFile W file _); reflexivity.
Qed.

(** The fetch loop never touches the file system. *)
Lemma fetch_loop_with_writeFile f options : forall chunkList skip0 serverList log,
  fetch_loop (with_writeFile W f) options chunkList skip0 serverList log
    = fetch_loop W options chunkList skip0 serverList log.
Proof.
  induction chunkList as [|c rest IH]; intros skip0 serverList log;
    [reflexivity|].
  rewrite !fetch_loop_cons. cbn [request JSON_parse_results with_writeFile].
  cbv zeta. destruct (request W _) as [res|e|]; [|reflexivity..].
  destruct (JSON_parse_results W res); [apply IH | reflexivity].
Qed.

End PostProcessor.

(** C7 as stated fails: with write enabled and an output path that
    [fs.writeFile] refuses (here one with a NUL character in it) the
    exception of [fs.writeFile] is not swallowed: [parseServers] and [Get]
    are rejected with it, while the same call with a path that is taken
    returns its list. *)
Lemma refused_write_is_not_swallowed :
  Extras.write nul_file = true /\
  Extras.file nul_file = Some nul_path /\
  has_nul nul_path = true /\
  fst (parseServers strict_world [small_server] nul_file [])
    = Rejects TypeError /\
  fst (getServers strict_world 1500 Options.empty nul_file [])
    = Rejects TypeError /\
  fst (getServers strict_world 1500 Options.empty write_only []) = Returns [].
Proof. vm_compute. repeat split. Qed.

(** C7, amended: a failure of the write that [fs.writeFile] reports to its
    callback is swallowed.  With write enabled and an output path that
    [fs.writeFile] takes, a write that ends with [err] is only logged:
    [parseServers] does not fail and returns its list, and both it and
    [getServers] return what they return however the write ends. *)
Theorem write_failure_is_swallowed
    (W : world) (f : string -> string -> option error)
    (json : list object) (extras : Extras.t) (path : string) (err : error)
    (log : list event) :
  Extras.write extras = true ->
  Extras.file extras = Some path ->
  fs_refuses W path = None ->
  f path (JSON_stringify W (parsed json extras)) = Some err ->
  parseServers (with_writeFile W f) json extras log
    = (Returns (parsed json extras),
       log ++ [WriteFile path (JSON_stringify W (parsed json extras));
               ConsoleLog err]) /\
  fst (parseServers W json extras log) = Returns (parsed json extras) /\
  forall (amount : Z) (options : Options.t),
    fst (getServers (with_writeFile W f) amount options extras log)
      = fst (getServers W amount options extras log).
Proof.
  intros Hwrite Hfile Htaken Herr. split; [|split].
  - unfold parseServers, bind, ret, write. cbv zeta.
    rewrite Hwrite, Hfile.
    cbn [fs_refuses fs_writeFile JSON_stringify with_writeFile].
    rewrite Htaken, Herr. reflexivity.
  - apply parseServers_returns. unfold write_refused.
    by rewrite Hwrite, Hfile.
  - intros amount options. unfold getServers, bind, lift.
    destruct (chunks amount default_split) as [chunkList| |]; try reflexivity.
    rewrite fetch_loop_with_writeFile.
    destruct (fetch_loop W options chunkList 0 [] log) as [[l|e|] log'];
      try reflexivity.
    apply parseServers_with_writeFile.
Qed.

Lemma write_failure_is_swallowed_witness :
  (Extras.write write_only = true /\
   Extras.file write_only = Some "out.json" /\
   fs_refuses strict_world "out.json" = None /\
   (fun _ _ : string => Some IOError) "out.json"
     (JSON_stringify strict_world (parsed [small_server] write_only))
     = Some IOError) /\
  parseServers (with_writeFile strict_world (fun _ _ => Some IOError))
      [small_server] write_only []
    = (Returns (parsed [small_server] write_only),
       [] ++ [WriteFile "out.json"
                (JSON_stringify strict_world (parsed [small_server] write_only));
              ConsoleLog IOError]) /\
  fst (parseServers strict_world [small_server] write_only [])
    = Returns (parsed [small_server] write_only) /\
  forall (amount : Z) (options : Options.t),
    fst (getServers (with_writeFile strict_world (fun _ _ => Some IOError))
           amount options write_only [])
      = fst (getServers strict_world amount options write_only []).
Proof.
  split; [repeat split|].
  apply (write_failure_is_swallowed strict_world (fun _ _ => Some IOError)
           [small_server] write_only "out.json" IOError []);
    reflexivity.
Defined.

(** *** Sorting and filtering on the [members] attribute *)

Lemma members_ge_trans : Transitive members_ge.
Proof.
  intros x y z (m & n & Hx & Hy & Hmn) (n' & k & Hy' & Hz & Hnk).
  exists m, k. repeat split; try assumption.
  rewrite Hy in Hy'. injection Hy' as <-. lia.
Qed.

Lemma members_ge_js_ge x y :
  members_ge x y -> js_ge (get x "members") (get y "members") = true.
Proof. intros (m & n & -> & -> & Hmn). cbn. lia. Qed.

Lemma Sorted_members_ge l :
  Forall (numeric "members") l ->
  Sorted (before compare) l -> Sorted members_ge l.
Proof.
  induction 2 as [|x l Hl IH Hhd]; [constructor|].
  apply Forall_cons in H as [[m Hx] Hnum].
  constructor; [by apply IH|].
  destruct Hhd as [|y l Hxy]; constructor.
  apply Forall_cons in Hnum as [[n Hy] _].
  exists m, n. repeat split; try assumption.
  by eapply compare_numeric.
Qed.

Lemma Forall_filter_bool {A} (P : A -> Prop) (f : A -> bool) l :
  Forall P l -> Forall P (List.filter f l).
Proof.
  induction 1 as [|x l Hx Hl IH]; cbn; [constructor|].
  destruct (f x); [by constructor | exact IH].
Qed.

Lemma StronglySorted_filter_bool {A} (R : A -> A -> Prop) (f : A -> bool) l :
  StronglySorted R l -> StronglySorted R (List.filter f l).
Proof.
  induction 1 as [|x l Hl IH Hx]; cbn; [constructor|].
  destruct (f x); [|exact IH].
  constructor; [exact IH | by apply Forall_filter_bool].
Qed.

Lemma Sorted_lookup {A} (R : A -> A -> Prop) l :
  Sorted R l ->
  forall i x y, l !! i = Some x -> l !! S i = Some y -> R x y.
Proof.
  induction 1 as [|a l Hl IH Hhd]; intros i x y Hx Hy; [discriminate|].
  destruct i as [|i]; cbn in Hx, Hy.
  - injection Hx as <-. destruct Hhd as [|b l Hab]; [discriminate|].
    cbn in Hy. by injection Hy as <-.
  - by eapply IH.
Qed.

Lemma simplify_numeric json :
  Forall (numeric "memberCount") json ->
  Forall (numeric "members") (simplify json).
Proof.
  rewrite simplify_map. induction 1 as [|s json Hs _ IH]; cbn; constructor.
  - destruct Hs as [n Hn]. exists n. by rewrite simplified_members.
  - exact IH.
Qed.

(** On the path where simplify ran first, sort gives a list that is
    descending in [members], whatever the filter does afterwards. *)
Lemma sort_after_simplify_descending json extras :
  Extras.simplify extras = true ->
  Extras.sort extras = true ->
  Forall (numeric "memberCount") json ->
  descending (parsed json extras).
Proof.
  intros Hsimp Hsort Hnum. unfold parsed. rewrite Hsimp, Hsort.
  set (SL := Array_sort compare (simplify json)).
  assert (Hsorted : StronglySorted members_ge SL).
  { apply Sorted_StronglySorted; [apply members_ge_trans|].
    apply Sorted_members_ge.
    - unfold SL.
      rewrite (Array_sort_perm compare (simplify json)).
      by apply simplify_numeric.
    - apply Array_sort_Sorted, compare_asym. }
  assert (Hout : forall l, StronglySorted members_ge l -> descending l).
  { intros l Hl i x y Hx Hy. apply members_ge_js_ge.
    eapply (Sorted_lookup members_ge l);
      [by apply StronglySorted_Sorted | exact Hx | exact Hy]. }
  destruct (_ && _); apply Hout; [|exact Hsorted].
  by apply StronglySorted_filter_bool.
Qed.

(** Without a [members] attribute the comparator finds every pair equal and
    the sort stage leaves the input order. *)
Lemma sort_without_members json :
  Forall (fun s => get s "members" = VUndefined) json ->
  parsed json sort_only = json.
Proof.
  intros Hund. unfold parsed. cbn.
  apply Array_sort_all_equal. intros x y Hx _.
  apply compare_undefined. rewrite Forall_forall in Hund. by apply Hund.
Qed.

(** C3 fails on the code when simplify did not run: with [{sort: true}] the
    two servers with [memberCount] 50 and 200 come back in input order,
    which is not descending in [memberCount], because [compare] reads the
    attribute [members] that only simplified records have. *)
Theorem sort_without_simplify_keeps_input_order :
  fst (parseServers empty_world [small_server; large_server] sort_only [])
    = Returns [small_server; large_server] /\
  get small_server "memberCount" = VNum 50 /\
  get large_server "memberCount" = VNum 200 /\
  js_ge (get small_server "memberCount") (get large_server "memberCount") = false /\
  compare small_server large_server = 0.
Proof.
  rewrite parseServers_returns, sort_without_members.
  - repeat split.
  - repeat constructor.
  - reflexivity.
Qed.

(** The filter stage keeps, in order, exactly the records of the list that
    reaches it whose [members] exceeds the threshold. *)
Lemma filter_stage json extras :
  Extras.filter extras = true ->
  js_gt (Extras.filterSize extras) (VNum 0) = true ->
  exists SL,
    SL ≡ₚ (if Extras.simplify extras then simplify json else json) /\
    (Extras.sort extras = false ->
     SL = if Extras.simplify extras then simplify json else json) /\
    parsed json extras
      = List.filter
          (fun s => js_gt (get s "members") (Extras.filterSize extras)) SL.
Proof.
  intros Hfilter Hsize. unfold parsed. rewrite Hfilter, Hsize. cbn [andb].
  destruct (Extras.sort extras); eexists; (split; [|split; [|reflexivity]]);
    try reflexivity; try discriminate.
  apply Array_sort_perm.
Qed.

Lemma filter_members_gt (T : value) (SL : list object) :
  Forall (fun s => js_gt (get s "members") T = true)
    (List.filter (fun s => js_gt (get s "members") T) SL).
Proof.
  induction SL as [|s SL IH]; cbn; [constructor|].
  destruct (js_gt (get s "members") T) eqn:Hs; [by constructor | exact IH].
Qed.

Lemma js_gt_undefined (T : value) : js_gt VUndefined T = false.
Proof.
  unfold js_gt, js_lt. destruct T as [|n|t]; cbn; try reflexivity.
  destruct (StringToNumber t); reflexivity.
Qed.

(** Without a [members] attribute no record passes the filter. *)
Lemma filter_without_members json (T : value) :
  Forall (fun s => get s "members" = VUndefined) json ->
  List.filter (fun s => js_gt (get s "members") T) json = [].
Proof.
  induction 1 as [|s json Hs _ IH]; cbn [List.filter]; [reflexivity|].
  rewrite Hs, js_gt_undefined. exact IH.
Qed.

(** C5 fails on the code when simplify did not run: with
    [{filter: true, filterSize: 100}] the server with [memberCount] 200,
    which exceeds the threshold, is dropped and the output is empty,
    because the filter reads the attribute [members] that only simplified
    records have. *)
Theorem filter_without_simplify_drops_qualifying :
  fst (parseServers empty_world [small_server; large_server] filter_only [])
    = Returns [] /\
  get large_server "memberCount" = VNum 200 /\
  Extras.filterSize filter_only = VNum 100 /\
  js_gt (get large_server "memberCount") (Extras.filterSize filter_only) = true /\
  get large_server "members" = VUndefined.
Proof.
  rewrite parseServers_returns by reflexivity.
  change (parsed [small_server; large_server] filter_only)
    with (List.filter (fun s => js_gt (get s "members") (VNum 100))
            [small_server; large_server]).
  rewrite filter_without_members by repeat constructor.
  repeat split.
Qed.

(** * Further properties of the source *)

(** ** The chunk planner with any page size *)

(** X1: for safe integers [amount] and [split] with [split] positive and
    no more chunks than an array holds, [chunks amount split] returns some
    number of chunks equal to [split] followed by one last chunk that is at
    most [split]; the chunks sum to [amount], the last one is positive when
    [amount] is, and the result is [[amount]] when [amount <= split]. *)
Theorem chunks_shape (amount split : Z) :
  safe_integer amount ->
  safe_integer split ->
  0 < split ->
  amount <= split * array_room ->
  exists (k : nat) (d : Z),
    chunks amount split = Returns (replicate k split ++ [d]) /\
    (Z.of_nat k < array_room) /\
    d <= split /\
    (0 < amount -> 0 < d) /\
    (amount <= split -> k = 0%nat /\ d = amount) /\
    total (replicate k split ++ [d]) = amount.
Proof.
  intros _ _ Hsplit Hroom.
  exists (full_chunks amount split),
         (amount - Z.of_nat (full_chunks amount split) * split).
  split; [by apply chunks_closed|].
  unfold full_chunks.
  pose proof (Z.div_mod (amount - 1) split ltac:(lia)) as Hdm.
  pose proof (Z.mod_pos_bound (amount - 1) split Hsplit) as Hmod.
  assert (Hlt : (amount - 1) / split < array_room)
    by (apply Z.div_lt_upper_bound; lia).
  set (q := (amount - 1) / split) in *.
  assert (Hq : 0 < amount -> 0 <= q) by (intros; apply Z.div_pos; lia).
  assert (Hq' : amount <= 0 -> q < 0)
    by (intros; apply Z.div_lt_upper_bound; lia).
  assert (Hq'' : amount <= split -> q <= 0).
  { intros Hle. destruct (Z.le_gt_cases amount 0); [lia|].
    unfold q. rewrite Z.div_small by lia. lia. }
  split; [|split; [|split; [|split]]].
  - unfold array_room in *. lia.
  - destruct (Z.le_gt_cases amount 0); [lia|]. nia.
  - intros Hpos. specialize (Hq Hpos). nia.
  - intros Hle. specialize (Hq'' Hle). lia.
  - rewrite total_app, total_replicate. cbn. lia.
Qed.

Lemma chunks_shape_witness :
  (safe_integer 1000 /\ safe_integer 300 /\ 0 < 300 /\
   1000 <= 300 * array_room) /\
  exists (k : nat) (d : Z),
    chunks 1000 300 = Returns (replicate k 300 ++ [d]) /\
    (Z.of_nat k < array_room) /\
    d <= 300 /\
    (0 < 1000 -> 0 < d) /\
    (1000 <= 300 -> k = 0%nat /\ d = 1000) /\
    total (replicate k 300 ++ [d]) = 1000.
Proof.
  assert (Hsafe : forall z, -1000 <= z <= 1000 -> safe_integer z)
    by (unfold safe_integer; lia).
  split; [unfold array_room; repeat split; try apply Hsafe; lia|].
  apply (chunks_shape 1000 300);
    [apply Hsafe; lia | apply Hsafe; lia | lia | unfold array_room; lia].
Defined.

(** X2: with a page size that is zero or negative and smaller than the
    amount, the loop condition of [chunks] holds at every iteration, however
    many are run, so [chunks] never returns a list: it is rejected with the
    [RangeError] of the array that cannot grow any further. *)
Theorem chunks_nonpositive_split_rejects (amount split : Z) :
  split <= 0 ->
  split < amount ->
  (forall fuel acc, chunks_loop fuel amount split acc = None) /\
  chunks amount split = Rejects RangeError.
Proof.
  intros Hs Hgt. split.
  - intros fuel acc. apply chunks_loop_diverges; lia.
  - by apply chunks_rejects_iff.
Qed.

Lemma chunks_nonpositive_split_rejects_witness :
  (0 <= 0 /\ 0 < 5) /\
  (forall fuel acc, chunks_loop fuel 5 0 acc = None) /\
  chunks 5 0 = Rejects RangeError.
Proof.
  split; [lia|]. apply (chunks_nonpositive_split_rejects 5 0); lia.
Defined.

(** X3: for every amount of at most 1000, zero and negative amounts
    included, the planner returns the single chunk [[amount]] and
    [getServers] issues exactly one request, for that amount at offset 0. *)
Theorem small_amount_single_request (amount : Z) :
  amount <= 1000 ->
  chunks amount default_split = Returns [amount] /\
  forall (W : world) (options : Options.t) (extras : Extras.t),
    requested (snd (getServers W amount options extras []))
      = [url (getUrl amount 0 (or_null (Options.tags options))
                (or_null (Options.query options)))].
Proof.
  intros Hle.
  assert (Hch : chunks amount default_split = Returns [amount]).
  { rewrite chunks_closed by reflexivity. unfold full_chunks, default_split.
    assert ((amount - 1) / 1000 <= 0).
    { destruct (Z.le_gt_cases amount 0).
      - assert ((amount - 1) / 1000 < 0)
          by (apply Z.div_lt_upper_bound; lia). lia.
      - rewrite Z.div_small by lia. lia. }
    replace (Z.to_nat ((amount - 1) / 1000)) with 0%nat by lia.
    cbn [replicate app]. do 2 f_equal. lia. }
  split; [exact Hch|]. intros W options extras.
  unfold getServers. rewrite Hch. unfold bind, lift.
  rewrite fetch_loop_cons. cbv zeta.
  destruct (request W _) as [res|e|]; [|reflexivity..].
  destruct (JSON_parse_results W res) as [results|]; [|reflexivity].
  cbn [fetch_loop]. unfold ret at 1. rewrite parseServers_requested.
  reflexivity.
Qed.

Lemma small_amount_single_request_witness :
  0 <= 1000 /\
  chunks 0 default_split = Returns [0] /\
  forall (W : world) (options : Options.t) (extras : Extras.t),
    requested (snd (getServers W 0 options extras []))
      = [url (getUrl 0 0 (or_null (Options.tags options))
                (or_null (Options.query options)))].
Proof. split; [lia | apply (small_amount_single_request 0); lia]. Defined.

(** ** A whole run of the fetch loop *)

Lemma last_cons_take {A} (x : A) (l : list A) (n : nat) (y : A) :
  last (take n l) = Some y -> last (x :: take n l) = Some y.
Proof. destruct (take n l); [discriminate | done]. Qed.

Section FetchRun.

Variable W : world.
Variable options : Options.t.

(** The loop requests the planned pages in order up to the first one that
    does not yield results; it returns the results of all pages appended to
    [serverList], or the failure of that page. *)
Lemma fetch_loop_run : forall chunkList skip0 serverList log,
  exists n : nat,
    (n <= length chunkList)%nat /\
    snd (fetch_loop W options chunkList skip0 serverList log)
      = log ++ (Requested <$> take n (planned options skip0 chunkList)) /\
    match fst (fetch_loop W options chunkList skip0 serverList log) with
    | Returns l =>
        n = length chunkList /\
        exists pages,
          mapM (page_results W) (planned options skip0 chunkList) = Some pages /\
          l = serverList ++ concat pages
    | Rejects e =>
        exists u,
          last (take n (planned options skip0 chunkList)) = Some u /\
          (request W u = Rejects e \/
           (e = ParseError /\
            exists res, request W u = Returns res /\
                        JSON_parse_results W res = None))
    | Hangs =>
        exists u,
          last (take n (planned options skip0 chunkList)) = Some u /\
          request W u = Hangs
    end.
Proof.
  induction chunkList as [|c rest IH]; intros skip0 serverList log.
  - exists 0%nat. cbn. rewrite !app_nil_r. repeat split; [lia|].
    exists []. by rewrite app_nil_r.
  - rewrite fetch_loop_cons. cbn [planned]. cbv zeta.
    set (u := url (getUrl c skip0 _ _)).
    destruct (request W u) as [res|e|] eqn:Hreq.
    + destruct (JSON_parse_results W res) as [results|] eqn:Hres.
      * destruct (IH (skip0 + c) (serverList ++ results) (log ++ [Requested u]))
          as (n & Hn & Hlog & Hout).
        exists (S n). split; [cbn; lia|]. split.
        -- rewrite Hlog, <- app_assoc. reflexivity.
        -- destruct (fst (fetch_loop W options rest (skip0 + c)
                            (serverList ++ results) (log ++ [Requested u])))
             as [l|e|].
           ++ destruct Hout as (-> & pages & Hpages & ->).
              split; [reflexivity|]. exists (results :: pages). split.
              ** apply mapM_Some_2. constructor; [|by apply mapM_Some_1].
                 unfold page_results. by rewrite Hreq.
              ** cbn. by rewrite <- app_assoc.
           ++ destruct Hout as (u' & Hlast & Hfail). exists u'.
              split; [|exact Hfail]. by apply last_cons_take.
           ++ destruct Hout as (u' & Hlast & Hfail). exists u'.
              split; [|exact Hfail]. by apply last_cons_take.
      * exists 1%nat. cbn [fst snd length]. split; [lia|]. split; [reflexivity|].
        exists u. split; [reflexivity|]. right. split; [reflexivity|]. eauto.
    + exists 1%nat. cbn [fst snd length]. split; [lia|]. split; [reflexivity|].
      exists u. split; [reflexivity|]. by left.
    + exists 1%nat. cbn [fst snd length]. split; [lia|]. split; [reflexivity|].
      by exists u.
Qed.

(** [parseServers] as one step: the exception of a refused write, or its
    list and the events of the persist stage. *)
Lemma parseServers_run json extras log :
  parseServers W json extras log
    = match write_refused W extras with
      | Some e => (Rejects e, log)
      | None =>
          (Returns (parsed json extras),
           log ++ write_events W extras (parsed json extras))
      end.
Proof.
  unfold parseServers, bind, ret, write, write_events, write_refused.
  cbv zeta.
  destruct (Extras.write extras); [|by rewrite app_nil_r].
  destruct (Extras.file extras) as [file|]; [|by rewrite app_nil_r].
  destruct (fs_refuses W file); [reflexivity|].
  destruct (fs_writeFile W file _); reflexivity.
Qed.

(** [getServers] as the fetch loop followed by [parseServers]. *)
Lemma getServers_run amount extras log chunkList :
  chunks amount default_split = Returns chunkList ->
  getServers W amount options extras log
    = match fetch_loop W options chunkList 0 [] log with
      | (Returns serverList, log') =>
          match write_refused W extras with
          | Some e => (Rejects e, log')
          | None =>
              (Returns (parsed serverList extras),
               log' ++ write_events W extras (parsed serverList extras))
          end
      | (Rejects e, log') => (Rejects e, log')
      | (Hangs, log') => (Hangs, log')
      end.
Proof.
  intros Hch. unfold getServers. rewrite Hch. unfold bind, lift.
  destruct (fetch_loop W options chunkList 0 [] log) as [[l|e|] log'];
    try reflexivity.
  apply parseServers_run.
Qed.

End FetchRun.

Lemma chunks_default_returns amount :
  exists chunkList, chunks amount default_split = Returns chunkList.
Proof. eexists. by apply chunks_closed. Qed.

Lemma page_results_failed W u :
  (forall res, request W u = Returns res -> JSON_parse_results W res = None) ->
  page_results W u = None.
Proof.
  intros Hfail. unfold page_results.
  destruct (request W u) as [res|e|]; [by apply Hfail | done | done].
Qed.

Lemma last_take_elem_of {A} (l : list A) n u :
  last (take n l) = Some u -> u ∈ l.
Proof.
  intros Hlast. apply last_Some_elem_of in Hlast.
  apply elem_of_take in Hlast as (i & Hi & _).
  by eapply list_elem_of_lookup_2.
Qed.

Lemma requested_fmap_Requested (urls : list string) :
  requested (Requested <$> urls) = urls.
Proof. induction urls as [|u urls IH]; cbn; [done|]. by f_equal. Qed.

(** X5: when every planned page is answered with a body whose [results]
    is an array of records, and [fs.writeFile] does not refuse the output
    path, [getServers] returns the post-processing of the pages
    concatenated in request order, however many records each page holds. *)
Theorem all_pages_give_returned_list
    (W : world) (amount : Z) (options : Options.t) (extras : Extras.t)
    (chunkList : list Z) (pages : list (list object)) :
  chunks amount default_split = Returns chunkList ->
  mapM (page_results W) (planned options 0 chunkList) = Some pages ->
  write_refused W extras = None ->
  fst (getServers W amount options extras [])
    = Returns (parsed (concat pages) extras).
Proof.
  intros Hch Hpages Htaken.
  rewrite (getServers_run W options amount extras [] chunkList Hch), Htaken.
  destruct (fetch_loop_run W options chunkList 0 [] [])
    as (n & Hn & Hlog & Hout).
  destruct (fetch_loop W options chunkList 0 [] []) as [[l|e|] log'];
    cbn [fst snd] in *.
  - destruct Hout as (_ & pages' & Hpages' & ->).
    rewrite Hpages in Hpages'. by injection Hpages' as <-.
  - destruct Hout as (u & Hlast & Hfail). exfalso.
    assert (Hnone : mapM (page_results W) (planned options 0 chunkList) = None).
    { apply mapM_None_2, Exists_exists. exists u.
      split; [by eapply last_take_elem_of|].
      apply page_results_failed. intros res Hres.
      destruct Hfail as [Hrej|(_ & res' & Hres' & Hparse)]; congruence. }
    congruence.
  - destruct Hout as (u & Hlast & Hhang). exfalso.
    assert (Hnone : mapM (page_results W) (planned options 0 chunkList) = None).
    { apply mapM_None_2, Exists_exists. exists u.
      split; [by eapply last_take_elem_of|].
      apply page_results_failed. intros res Hres. congruence. }
    congruence.
Qed.

Lemma all_pages_give_returned_list_witness :
  (chunks 1500 default_split = Returns [1000; 500] /\
   mapM (page_results scenario_world) (planned Options.empty 0 [1000; 500])
     = Some [[small_server; large_server]; [mid_server]] /\
   write_refused scenario_world write_only = None) /\
  fst (getServers scenario_world 1500 Options.empty write_only [])
    = Returns (parsed (concat [[small_server; large_server]; [mid_server]])
                 write_only).
Proof.
  split; [repeat split|].
  apply (all_pages_give_returned_list scenario_world 1500 Options.empty
           write_only [1000; 500]
           [[small_server; large_server]; [mid_server]]);
    reflexivity.
Defined.

(** X6: when [getServers] is rejected, nothing has been written: its
    only events are the requests of the first pages of the plan, in order;
    and when it has not requested every planned page, the page requested
    last is the one that failed, by the transport error it is rejected with
    or by a body that does not parse. *)
Theorem rejected_call_writes_nothing
    (W : world) (amount : Z) (options : Options.t) (extras : Extras.t)
    (e : error) :
  fst (getServers W amount options extras []) = Rejects e ->
  exists (chunkList : list Z) (n : nat),
    chunks amount default_split = Returns chunkList /\
    (n <= length chunkList)%nat /\
    snd (getServers W amount options extras [])
      = Requested <$> take n (planned options 0 chunkList) /\
    ((n < length chunkList)%nat ->
     exists u,
       last (take n (planned options 0 chunkList)) = Some u /\
       (request W u = Rejects e \/
        (e = ParseError /\
         exists res, request W u = Returns res /\
                     JSON_parse_results W res = None))).
Proof.
  intros Hrej. destruct (chunks_default_returns amount) as [chunkList Hch].
  rewrite (getServers_run W options amount extras [] chunkList Hch) in Hrej |- *.
  destruct (fetch_loop_run W options chunkList 0 [] [])
    as (n & Hn & Hlog & Hout).
  destruct (fetch_loop W options chunkList 0 [] []) as [[l|e'|] log'];
    cbn [fst snd] in *; try discriminate.
  - destruct Hout as (-> & _).
    destruct (write_refused W extras) as [e'|]; [|discriminate].
    exists chunkList, (length chunkList).
    split; [exact Hch|]. split; [lia|]. split; [exact Hlog | lia].
  - injection Hrej as ->. destruct Hout as (u & Hlast & Hfail).
    exists chunkList, n. split; [exact Hch|]. split; [exact Hn|].
    split; [exact Hlog|]. intros _. by exists u.
Qed.

Lemma rejected_call_writes_nothing_witness :
  fst (getServers scenario_world 3500 Options.empty write_only [])
    = Rejects NetworkError /\
  exists (chunkList : list Z) (n : nat),
    chunks 3500 default_split = Returns chunkList /\
    (n <= length chunkList)%nat /\
    snd (getServers scenario_world 3500 Options.empty write_only [])
      = Requested <$> take n (planned Options.empty 0 chunkList) /\
    ((n < length chunkList)%nat ->
     exists u,
       last (take n (planned Options.empty 0 chunkList)) = Some u /\
       (request scenario_world u = Rejects NetworkError \/
        (NetworkError = ParseError /\
         exists res, request scenario_world u = Returns res /\
                     JSON_parse_results scenario_world res = None))).
Proof.
  split; [reflexivity|].
  apply (rejected_call_writes_nothing scenario_world 3500 Options.empty
           write_only NetworkError).
  reflexivity.
Defined.

(** In the scenario world a call for 3500 records stops at the second of
    its four pages. *)
Example scenario_stops_at_second_page :
  getServers scenario_world 3500 Options.empty write_only []
    = (Rejects NetworkError,
       Requested <$> take 2 (planned Options.empty 0 [1000; 1000; 1000; 500])).
Proof. reflexivity. Qed.

(** X7: when [getServers] hangs, the page requested last is one whose
    request never answers; no later page is requested and nothing is
    written. *)
Theorem hangs_at_unanswered_page
    (W : world) (amount : Z) (options : Options.t) (extras : Extras.t) :
  fst (getServers W amount options extras []) = Hangs ->
  exists (chunkList : list Z) (n : nat) (u : string),
    chunks amount default_split = Returns chunkList /\
    snd (getServers W amount options extras [])
      = Requested <$> take n (planned options 0 chunkList) /\
    last (take n (planned options 0 chunkList)) = Some u /\
    request W u = Hangs.
Proof.
  intros Hhang. destruct (chunks_default_returns amount) as [chunkList Hch].
  rewrite (getServers_run W options amount extras [] chunkList Hch) in Hhang |- *.
  destruct (fetch_loop_run W options chunkList 0 [] [])
    as (n & Hn & Hlog & Hout).
  destruct (fetch_loop W options chunkList 0 [] []) as [[l|e'|] log'];
    cbn [fst snd] in *; try discriminate.
  - by destruct (write_refused W extras).
  - destruct Hout as (u & Hlast & Hfail).
    by exists chunkList, n, u.
Qed.

Lemma hangs_at_unanswered_page_witness :
  fst (getServers stalled_world 1500 Options.empty write_only []) = Hangs /\
  exists (chunkList : list Z) (n : nat) (u : string),
    chunks 1500 default_split = Returns chunkList /\
    snd (getServers stalled_world 1500 Options.empty write_only [])
      = Requested <$> take n (planned Options.empty 0 chunkList) /\
    last (take n (planned Options.empty 0 chunkList)) = Some u /\
    request stalled_world u = Hangs.
Proof.
  split; [reflexivity|].
  apply (hangs_at_unanswered_page stalled_world 1500 Options.empty write_only).
  reflexivity.
Defined.

(** X8: when [getServers] returns [L], its events are the requests of all
    planned pages followed by those of the persist stage: nothing when
    write is off or no file is named, else one write of the stringified [L]
    to the file, after the last request, and the logged error if it
    fails. *)
Theorem file_written_once_after_requests
    (W : world) (amount : Z) (options : Options.t) (extras : Extras.t)
    (L : list object) :
  fst (getServers W amount options extras []) = Returns L ->
  exists chunkList,
    chunks amount default_split = Returns chunkList /\
    snd (getServers W amount options extras [])
      = (Requested <$> planned options 0 chunkList) ++ write_events W extras L.
Proof.
  intros Hret. destruct (chunks_default_returns amount) as [chunkList Hch].
  rewrite (getServers_run W options amount extras [] chunkList Hch) in Hret |- *.
  destruct (fetch_loop_run W options chunkList 0 [] [])
    as (n & Hn & Hlog & Hout).
  destruct (fetch_loop W options chunkList 0 [] []) as [[l|e|] log'];
    cbn [fst snd] in *; try discriminate.
  destruct (write_refused W extras); [discriminate|]. cbn [fst snd] in *.
  destruct Hout as (-> & _). injection Hret as <-.
  exists chunkList. split; [exact Hch|].
  rewrite Hlog. cbn [app].
  by rewrite <- (planned_length options chunkList 0), firstn_all.
Qed.

Lemma file_written_once_after_requests_witness :
  fst (getServers scenario_world 1500 Options.empty write_only [])
    = Returns [small_server; large_server; mid_server] /\
  exists chunkList,
    chunks 1500 default_split = Returns chunkList /\
    snd (getServers scenario_world 1500 Options.empty write_only [])
      = (Requested <$> planned Options.empty 0 chunkList)
        ++ write_events scenario_world write_only
             [small_server; large_server; mid_server].
Proof.
  split; [reflexivity|].
  apply (file_written_once_after_requests scenario_world 1500 Options.empty
           write_only [small_server; large_server; mid_server]).
  reflexivity.
Defined.

(** In the scenario world the failing write shows in the events as the
    write followed by the logged error. *)
Example scenario_write_events :
  snd (getServers scenario_world 1500 Options.empty write_only [])
    = [Requested page_1000_0; Requested page_500_1000;
       WriteFile "out.json" "[]"; ConsoleLog IOError].
Proof. reflexivity. Qed.

(** X9: an empty [tags] or [query] string counts as absent: two calls
    whose options agree once empty strings are dropped do exactly the
    same. *)
Theorem blank_option_is_absent
    (W : world) (amount : Z) (options options' : Options.t)
    (extras : Extras.t) (log : list event) :
  or_null (Options.tags options) = or_null (Options.tags options') ->
  or_null (Options.query options) = or_null (Options.query options') ->
  getServers W amount options extras log
    = getServers W amount options' extras log.
Proof.
  intros Htags Hquery.
  assert (Hloop : forall chunkList skip0 serverList log0,
            fetch_loop W options chunkList skip0 serverList log0
              = fetch_loop W options' chunkList skip0 serverList log0).
  { induction chunkList as [|c rest IH]; intros skip0 serverList log0;
      [reflexivity|].
    rewrite !fetch_loop_cons, Htags, Hquery. cbv zeta.
    destruct (request W _) as [res|e|]; [|reflexivity..].
    destruct (JSON_parse_results W res); [apply IH | reflexivity]. }
  unfold getServers, bind, lift.
  destruct (chunks amount default_split) as [chunkList| |]; try reflexivity.
  by rewrite Hloop.
Qed.

Lemma blank_option_is_absent_witness :
  (or_null (Options.tags blank_options) = or_null (Options.tags Options.empty) /\
   or_null (Options.query blank_options) = or_null (Options.query Options.empty)) /\
  getServers scenario_world 1500 blank_options scenario_extras []
    = getServers scenario_world 1500 Options.empty scenario_extras [].
Proof.
  split; [split; reflexivity|].
  apply (blank_option_is_absent scenario_world 1500 blank_options Options.empty
           scenario_extras []); reflexivity.
Defined.

(** ** The post-processor on any input *)

Lemma filter_bool_sublist {A} (f : A -> bool) (l : list A) :
  List.filter f l `sublist_of` l.
Proof.
  induction l as [|x l IH]; cbn; [constructor|].
  destruct (f x); by constructor.
Qed.

Lemma length_simplify json : length (simplify json) = length json.
Proof. rewrite simplify_map. apply length_map. Qed.

Lemma parsed_stages json extras :
  parsed json extras
    = let SL := if Extras.sort extras
                then Array_sort compare (projected json extras)
                else projected json extras in
      if filter_active extras
      then List.filter
             (fun s => js_gt (get s "members") (Extras.filterSize extras)) SL
      else SL.
Proof. reflexivity. Qed.

(** X10: post-processing never adds or duplicates a record: its output is
    contained, with multiplicity, in the list that reaches the sort stage
    and is never longer than the input; unless the filter stage runs it is
    a rearrangement of that list. *)
Theorem parsed_adds_nothing (json : list object) (extras : Extras.t) :
  parsed json extras ⊆+ projected json extras /\
  (length (parsed json extras) <= length json)%nat /\
  (filter_active extras = false ->
   parsed json extras ≡ₚ projected json extras /\
   length (parsed json extras) = length json).
Proof.
  assert (Hlen : length (projected json extras) = length json).
  { unfold projected. destruct (Extras.simplify extras);
      [apply length_simplify | reflexivity]. }
  assert (Hsort : (if Extras.sort extras
                   then Array_sort compare (projected json extras)
                   else projected json extras) ≡ₚ projected json extras).
  { destruct (Extras.sort extras); [apply Array_sort_perm | reflexivity]. }
  assert (Hsub : parsed json extras ⊆+ projected json extras).
  { rewrite parsed_stages. cbv zeta.
    destruct (filter_active extras);
      [|by apply Permutation_submseteq].
    etrans; [apply sublist_submseteq, filter_bool_sublist|].
    by apply Permutation_submseteq. }
  split; [exact Hsub|]. split.
  - rewrite <- Hlen. by apply submseteq_length.
  - intros Hoff. rewrite parsed_stages, Hoff. cbv zeta.
    split; [exact Hsort|]. rewrite <- Hlen. by apply Permutation_length.
Qed.

Lemma parsed_adds_nothing_witness :
  filter_active sort_only = false /\
  parsed [small_server; large_server] sort_only
    ≡ₚ projected [small_server; large_server] sort_only /\
  length (parsed [small_server; large_server] sort_only)
    = length [small_server; large_server].
Proof.
  split; [reflexivity|].
  apply (proj2 (proj2 (parsed_adds_nothing [small_server; large_server]
                         sort_only))).
  reflexivity.
Defined.

(** X11: the filter flag has no effect unless [filterSize] is a positive
    number: with [filterSize] missing, zero or negative the output is the
    one obtained with the filter off. *)
Theorem filter_needs_positive_size (json : list object) (extras : Extras.t) :
  Extras.filterSize extras = VUndefined \/
  (exists t, Extras.filterSize extras = VNum t /\ t <= 0) ->
  parsed json extras = parsed json (without_filter extras).
Proof.
  intros Hsize. rewrite !parsed_stages. cbv zeta.
  assert (Hoff : filter_active extras = false).
  { unfold filter_active. destruct Hsize as [->|(t & -> & Ht)].
    - by rewrite andb_false_r.
    - unfold js_gt, js_lt. cbn.
      replace (0 <? t) with false by lia. by rewrite andb_false_r. }
  rewrite Hoff. reflexivity.
Qed.

Lemma filter_needs_positive_size_witness :
  (Extras.filterSize filter_unsized = VUndefined \/
   (exists t, Extras.filterSize filter_unsized = VNum t /\ t <= 0)) /\
  parsed [small_server] filter_unsized
    = parsed [small_server] (without_filter filter_unsized).
Proof.
  split; [by left|].
  apply (filter_needs_positive_size [small_server] filter_unsized).
  by left.
Defined.

Lemma filter_simplify_commute (T : value) (json : list object) :
  List.filter (fun r => js_gt (get r "members") T) (simplify json)
    = simplify (List.filter (fun s => js_gt (get s "memberCount") T) json).
Proof.
  rewrite !simplify_map. induction json as [|s json IH]; cbn; [done|].
  rewrite simplified_members.
  destruct (js_gt (get s "memberCount") T); cbn; by rewrite IH.
Qed.

Lemma elem_of_filter_bool {A} (f : A -> bool) (l : list A) (x : A) :
  x ∈ List.filter f l <-> x ∈ l /\ f x = true.
Proof. rewrite !list_elem_of_In. apply filter_In. Qed.

(** X12: with simplify on and the filter stage running, the output holds
    exactly the projections of the entities whose [memberCount] exceeds
    [filterSize]; with sort off they come in input order. *)
Theorem simplified_filter_by_memberCount
    (json : list object) (extras : Extras.t) :
  Extras.simplify extras = true ->
  filter_active extras = true ->
  (forall r,
     r ∈ parsed json extras <->
     exists s, s ∈ json /\ r = simplified s /\
               js_gt (get s "memberCount") (Extras.filterSize extras) = true) /\
  (Extras.sort extras = false ->
   parsed json extras
     = simplify (List.filter
                   (fun s => js_gt (get s "memberCount")
                               (Extras.filterSize extras)) json)).
Proof.
  intros Hsimp Hact. rewrite parsed_stages, Hact. unfold projected.
  rewrite Hsimp. cbv zeta. split.
  - intros r. rewrite elem_of_filter_bool.
    assert (Hin : r ∈ (if Extras.sort extras
                       then Array_sort compare (simplify json)
                       else simplify json) <-> r ∈ simplify json).
    { destruct (Extras.sort extras); [|done].
      by rewrite (Array_sort_perm compare (simplify json)). }
    rewrite Hin, simplify_map, list_elem_of_fmap. split.
    + intros [(s & -> & Hs) Hgt]. exists s. by rewrite <- simplified_members.
    + intros (s & Hs & -> & Hgt). split; [by exists s|].
      by rewrite simplified_members.
  - intros ->. apply filter_simplify_commute.
Qed.

Lemma simplified_filter_by_memberCount_witness :
  (Extras.simplify scenario_extras = true /\
   filter_active scenario_extras = true) /\
  (forall r,
     r ∈ parsed [small_server; large_server; mid_server] scenario_extras <->
     exists s, s ∈ [small_server; large_server; mid_server] /\
               r = simplified s /\
               js_gt (get s "memberCount")
                 (Extras.filterSize scenario_extras) = true) /\
  (Extras.sort scenario_extras = false ->
   parsed [small_server; large_server; mid_server] scenario_extras
     = simplify (List.filter
                   (fun s => js_gt (get s "memberCount")
                               (Extras.filterSize scenario_extras))
                   [small_server; large_server; mid_server])).
Proof.
  split; [split; reflexivity|].
  apply (simplified_filter_by_memberCount
           [small_server; large_server; mid_server] scenario_extras);
    reflexivity.
Defined.

(** X13: with sort on, the output is descending in [members] whenever every
    record that reaches the sort stage carries an integer [members]: after
    simplify when every entity has an integer [memberCount], and without
    simplify when the input records have [members] themselves. *)
Theorem sorted_when_members_are_integers
    (json : list object) (extras : Extras.t) :
  Extras.sort extras = true ->
  Forall (numeric "members") (projected json extras) ->
  descending (parsed json extras).
Proof.
  intros Hsort Hnum. rewrite parsed_stages, Hsort. cbv zeta.
  set (SL := Array_sort compare (projected json extras)).
  assert (Hsorted : StronglySorted members_ge SL).
  { apply Sorted_StronglySorted; [apply members_ge_trans|].
    apply Sorted_members_ge.
    - unfold SL. by rewrite (Array_sort_perm compare (projected json extras)).
    - apply Array_sort_Sorted, compare_asym. }
  assert (Hout : forall l, StronglySorted members_ge l -> descending l).
  { intros l Hl i x y Hx Hy. apply members_ge_js_ge.
    eapply (Sorted_lookup members_ge l);
      [by apply StronglySorted_Sorted | exact Hx | exact Hy]. }
  destruct (filter_active extras); apply Hout; [|exact Hsorted].
  by apply StronglySorted_filter_bool.
Qed.

Lemma sorted_when_members_are_integers_witness :
  (Extras.sort sort_only = true /\
   Forall (numeric "members")
     (projected [simplified small_server; simplified large_server] sort_only)) /\
  descending (parsed [simplified small_server; simplified large_server]
                sort_only).
Proof.
  assert (Hnum : Forall (numeric "members")
            (projected [simplified small_server; simplified large_server]
               sort_only))
    by (repeat constructor; eexists; reflexivity).
  split; [split; [reflexivity | exact Hnum]|].
  apply (sorted_when_members_are_integers
           [simplified small_server; simplified large_server] sort_only);
    [reflexivity | exact Hnum].
Defined.

(** ** The comparator *)

Lemma string_compare_refl (s : string) : String.compare s s = Eq.
Proof.
  induction s as [|c s IH]; cbn; [reflexivity|].
  unfold Ascii.compare. by rewrite N.compare_refl.
Qed.

Lemma js_lt_irrefl v : js_lt v v = false.
Proof.
  destruct v as [|n|s]; cbn; [done | lia |].
  unfold String.ltb. by rewrite string_compare_refl.
Qed.

(** X14: [compare] is a consistent comparator: it only yields -1, 0 or 1,
    swapping its arguments negates it, and on records with integer
    [members] [m] and [n] it is the sign of [n - m], positive when the
    first record has fewer members. *)
Theorem compare_is_sign (x y : object) :
  (compare x y = -1 \/ compare x y = 0 \/ compare x y = 1) /\
  compare x y = - compare y x /\
  forall m n,
    get x "members" = VNum m -> get y "members" = VNum n ->
    compare x y = Z.sgn (n - m).
Proof.
  split; [|split].
  - unfold compare. repeat case_match; lia.
  - unfold compare, js_gt.
    destruct (js_lt (get x "members") (get y "members")) eqn:Hxy.
    + by rewrite (js_lt_asym _ _ Hxy).
    + by destruct (js_lt (get y "members") (get x "members")).
  - intros m n Hx Hy. unfold compare, js_gt, js_lt. rewrite Hx, Hy. cbn.
    destruct (Z.ltb_spec m n); [lia|]. destruct (Z.ltb_spec n m); lia.
Qed.

Lemma compare_is_sign_witness :
  (get (simplified small_server) "members" = VNum 50 /\
   get (simplified large_server) "members" = VNum 200) /\
  compare (simplified small_server) (simplified large_server)
    = Z.sgn (200 - 50).
Proof.
  split; [split; reflexivity|].
  apply (proj2 (proj2 (compare_is_sign (simplified small_server)
                         (simplified large_server))) 50 200);
    reflexivity.
Defined.

(** ** Stability of the sort stage *)

Section Stability.

Context {A : Type} (cmp : A -> A -> Z) (P : A -> bool).

(** [cmp] never asks to move a record of the class [P] behind another. *)
Hypothesis cmp_class : forall x y, P x = true -> P y = true -> cmp x y <= 0.

Lemma sort_insert_class x l :
  List.filter P (sort_insert cmp x l) = List.filter P (x :: l).
Proof.
  induction l as [|y l IH]; [reflexivity|].
  cbn [sort_insert]. destruct (Z.gtb_spec (cmp x y) 0) as [Hgt|Hle];
    [|reflexivity].
  cbn [List.filter] in *. rewrite IH.
  destruct (P x) eqn:Hx, (P y) eqn:Hy; try reflexivity.
  specialize (cmp_class x y Hx Hy). lia.
Qed.

Lemma Array_sort_class l :
  List.filter P (Array_sort cmp l) = List.filter P l.
Proof.
  induction l as [|x l IH]; [reflexivity|].
  change (Array_sort cmp (x :: l)) with (sort_insert cmp x (Array_sort cmp l)).
  rewrite sort_insert_class. cbn [List.filter]. by rewrite IH.
Qed.

End Stability.

Lemma filter_bool_comm {A} (f g : A -> bool) (l : list A) :
  List.filter f (List.filter g l) = List.filter g (List.filter f l).
Proof.
  induction l as [|x l IH]; [reflexivity|]. cbn.
  destruct (f x) eqn:Hf, (g x) eqn:Hg; cbn; rewrite ?Hf, ?Hg, IH; reflexivity.
Qed.

Lemma compare_same_members v x y :
  has_members v x = true -> has_members v y = true -> compare x y <= 0.
Proof.
  unfold has_members. intros Hx%bool_decide_eq_true Hy%bool_decide_eq_true.
  unfold compare, js_gt. rewrite Hx, Hy, js_lt_irrefl. lia.
Qed.

(** X15: on records that all carry an integer [members], where [compare]
    is a consistent comparator, the sort stage is stable: the records that
    have one and the same [members] value come out in the order in which
    they would come out with sort off. *)
Theorem sort_keeps_order_of_equal_members
    (v : value) (json : list object) (extras : Extras.t) :
  Forall (numeric "members") (projected json extras) ->
  List.filter (has_members v) (parsed json extras)
    = List.filter (has_members v) (parsed json (without_sort extras)).
Proof.
  intros _. rewrite !parsed_stages. cbv zeta.
  change (filter_active (without_sort extras)) with (filter_active extras).
  change (projected json (without_sort extras)) with (projected json extras).
  change (Extras.filterSize (without_sort extras))
    with (Extras.filterSize extras).
  cbn [Extras.sort without_sort].
  destruct (Extras.sort extras); [|reflexivity].
  destruct (filter_active extras).
  - rewrite filter_bool_comm, Array_sort_class by apply compare_same_members.
    apply filter_bool_comm.
  - apply Array_sort_class, compare_same_members.
Qed.

Lemma sort_keeps_order_of_equal_members_witness :
  Forall (numeric "members")
    (projected [small_server; large_server; twin_server] simplify_and_sort) /\
  List.filter (has_members (VNum 50))
    (parsed [small_server; large_server; twin_server] simplify_and_sort)
    = List.filter (has_members (VNum 50))
        (parsed [small_server; large_server; twin_server]
           (without_sort simplify_and_sort)).
Proof.
  assert (Hnum : Forall (numeric "members")
            (projected [small_server; large_server; twin_server]
               simplify_and_sort))
    by (repeat constructor; eexists; reflexivity).
  split; [exact Hnum|].
  by apply (sort_keeps_order_of_equal_members (VNum 50)
              [small_server; large_server; twin_server] simplify_and_sort).
Defined.

(** With simplify and sort the twin comes after the small server, as in
    the input, and both after the large one. *)
Example sort_twins_value :
  parsed [small_server; large_server; twin_server] simplify_and_sort
    = [simplified large_server; simplified small_server;
       simplified twin_server].
Proof. vm_compute. reflexivity. Qed.

(** ** Records without [members] *)

(** X16: without simplify, on records that have no [members] attribute the
    sort stage changes nothing and a running filter stage removes every
    record: the output is the input, or empty when the filter runs. *)
Theorem raw_records_unsorted_or_dropped
    (json : list object) (extras : Extras.t) :
  Extras.simplify extras = false ->
  Forall (fun s => get s "members" = VUndefined) json ->
  parsed json extras = if filter_active extras then [] else json.
Proof.
  intros Hsimp Hraw. rewrite parsed_stages. unfold projected.
  rewrite Hsimp. cbv zeta.
  assert (Hsort : (if Extras.sort extras
                   then Array_sort compare json else json) = json).
  { destruct (Extras.sort extras); [|reflexivity].
    apply Array_sort_all_equal. intros x y Hx _.
    apply compare_undefined. rewrite Forall_forall in Hraw. by apply Hraw. }
  rewrite Hsort. destruct (filter_active extras); [|reflexivity].
  by apply filter_without_members.
Qed.

Lemma raw_records_unsorted_or_dropped_witness :
  (Extras.simplify filter_only = false /\
   Forall (fun s => get s "members" = VUndefined)
     [small_server; large_server; mid_server]) /\
  parsed [small_server; large_server; mid_server] filter_only
    = if filter_active filter_only then []
      else [small_server; large_server; mid_server].
Proof.
  assert (Hraw : Forall (fun s => get s "members" = VUndefined)
                   [small_server; large_server; mid_server])
    by (repeat constructor).
  split; [split; [reflexivity | exact Hraw]|].
  apply (raw_records_unsorted_or_dropped
           [small_server; large_server; mid_server] filter_only);
    [reflexivity | exact Hraw].
Defined.

(** ** The URLs of one call *)

Lemma pretty_N_go_no_amp (x : N) : forall s,
  no_amp s = true -> no_amp (pretty_N_go x s) = true.
Proof.
  induction (N.lt_wf_0 x) as [x _ IH]. intros s Hs.
  destruct (decide (x = 0%N)) as [->|Hx]; [by rewrite pretty_N_go_0|].
  rewrite pretty_N_go_step by lia. apply IH.
  - apply N.div_lt; lia.
  - cbn [no_amp]. rewrite Hs, andb_true_r.
    unfold pretty_N_char. by repeat case_match.
Qed.

Lemma pretty_Z_no_amp (z : Z) : no_amp (pretty z) = true.
Proof.
  destruct z as [|x|x]; [reflexivity| |].
  - unfold pretty, pretty_Z, pretty, pretty_positive, pretty, pretty_N.
    destruct (decide _); [reflexivity|]. by apply pretty_N_go_no_amp.
  - unfold pretty, pretty_Z, pretty, pretty_positive, pretty, pretty_N.
    destruct (decide _); [reflexivity|].
    cbn [String.append no_amp]. by apply pretty_N_go_no_amp.
Qed.

Lemma split_at_amp : forall p p' r r',
  no_amp p = true -> no_amp p' = true ->
  p +:+ String "&" r = p' +:+ String "&" r' -> p = p' /\ r = r'.
Proof.
  induction p as [|c p IH]; intros [|c' p'] r r' Hp Hp' Heq; cbn in *.
  - by injection Heq as ->.
  - injection Heq as <- _. by rewrite Ascii.eqb_refl in Hp'.
  - injection Heq as -> _. by rewrite Ascii.eqb_refl in Hp.
  - injection Heq as -> Heq.
    apply andb_true_iff in Hp as [_ Hp]. apply andb_true_iff in Hp' as [_ Hp'].
    destruct (IH _ _ _ Hp Hp' Heq) as [-> ->]. done.
Qed.

(** For given tags and query the URL determines the amount and the offset. *)
Lemma getUrl_inj a s a' s' t q :
  url (getUrl a s t q) = url (getUrl a' s' t q) -> a = a' /\ s = s'.
Proof.
  unfold getUrl. cbn [url]. intros Heq.
  do 4 apply (inj (String.append _)) in Heq.
  change (pretty a +:+ String "&" ("skip=" +:+ pretty s)
          = pretty a' +:+ String "&" ("skip=" +:+ pretty s')) in Heq.
  apply split_at_amp in Heq as [Ha Hs]; [|apply pretty_Z_no_amp..].
  apply (inj (String.append _)) in Hs.
  split; by apply (inj pretty).
Qed.

Lemma inner_positive_tail c rest : inner_positive (c :: rest) -> inner_positive rest.
Proof. intros Hpos i c' Hi Hlen. apply (Hpos (S i) c' Hi). cbn. lia. Qed.

Lemma inner_positive_total chunkList (i : nat) :
  inner_positive chunkList -> (i < length chunkList)%nat ->
  0 <= total (take i chunkList).
Proof.
  revert i. induction chunkList as [|c rest IH]; intros i Hpos Hi.
  - by destruct i.
  - destruct i as [|i]; [done|]. cbn [take total foldr].
    fold (total (take i rest)). cbn in Hi.
    assert (0 < c) by (apply (Hpos 0%nat c eq_refl); cbn; lia).
    assert (0 <= total (take i rest))
      by (apply IH; [by eapply inner_positive_tail | lia]).
    lia.
Qed.

Lemma planned_NoDup options : forall chunkList skip0,
  inner_positive chunkList -> NoDup (planned options skip0 chunkList).
Proof.
  induction chunkList as [|c rest IH]; intros skip0 Hpos; [constructor|].
  cbn [planned]. constructor.
  - intros Hin. apply list_elem_of_lookup in Hin as [i Hi].
    pose proof (lookup_lt_Some _ _ _ Hi) as Hlt.
    rewrite planned_length in Hlt.
    apply planned_lookup in Hi as (c' & Hc' & Hurl).
    apply getUrl_inj in Hurl as [_ Hskip].
    assert (0 < c) by (apply (Hpos 0%nat c eq_refl); cbn; lia).
    assert (0 <= total (take i rest))
      by (apply inner_positive_total; [by eapply inner_positive_tail | lia]).
    lia.
  - apply IH. by eapply inner_positive_tail.
Qed.

Lemma chunks_inner_positive amount chunkList :
  chunks amount default_split = Returns chunkList -> inner_positive chunkList.
Proof.
  rewrite chunks_closed by reflexivity. intros [= <-] i c Hi Hlen.
  rewrite length_app, length_replicate in Hlen. cbn in Hlen.
  rewrite lookup_app_l in Hi by (rewrite length_replicate; lia).
  apply lookup_replicate in Hi as [-> _]. reflexivity.
Qed.

(** X17: in one call of [getServers] no URL is requested twice. *)
Theorem no_page_requested_twice
    (W : world) (amount : Z) (options : Options.t) (extras : Extras.t) :
  NoDup (requested (snd (getServers W amount options extras []))).
Proof.
  destruct (getServers_requested W options amount extras [])
    as (chunkList & n & Hch & _ & Hreq & _).
  rewrite Hreq. cbn [requested omap app].
  eapply sublist_NoDup; [|apply sublist_take].
  apply planned_NoDup. by eapply chunks_inner_positive.
Qed.

(** X18: for given tags and query the URL of a page determines the amount
    and the offset it was built from. *)
Theorem url_determines_amount_and_skip
    (a s a' s' : Z) (t q : option string) :
  url (getUrl a s t q) = url (getUrl a' s' t q) -> a = a' /\ s = s'.
Proof. apply getUrl_inj. Qed.

Lemma url_determines_amount_and_skip_witness :
  url (getUrl 500 1000 None None) = url (getUrl (250 + 250) (2 * 500) None None) /\
  500 = 250 + 250 /\ 1000 = 2 * 500.
Proof.
  split; [reflexivity|].
  apply (url_determines_amount_and_skip 500 1000 (250 + 250) (2 * 500) None None).
  reflexivity.
Defined.

Lemma string_app_assoc (s1 s2 s3 : string) :
  (s1 +:+ s2) +:+ s3 = s1 +:+ (s2 +:+ s3).
Proof.
  induction s1 as [|c s1 IH]; [reflexivity|].
  change (String c ((s1 +:+ s2) +:+ s3) = String c (s1 +:+ s2 +:+ s3)).
  by rewrite IH.
Qed.

(** X19: tags and query are put into the URL verbatim, without escaping: a
    query that contains [&tags=y] gives the same URL as that query cut
    before it together with the tag [y]. *)
Theorem query_is_not_escaped (a s : Z) (x y : string) :
  url (getUrl a s None (Some (x +:+ "&tags=" +:+ y)))
    = url (getUrl a s (Some y) (Some x)).
Proof.
  unfold getUrl. cbn [url]. f_equal.
  rewrite !string_app_assoc. reflexivity.
Qed.

(** X20: the pages requested do not depend on the post-processing
    options. *)
Theorem requests_independent_of_extras
    (W : world) (amount : Z) (options : Options.t)
    (extras extras' : Extras.t) :
  requested (snd (getServers W amount options extras []))
    = requested (snd (getServers W amount options extras' [])).
Proof.
  destruct (chunks_default_returns amount) as [chunkList Hch].
  rewrite !(getServers_run W options amount _ [] chunkList Hch).
  destruct (fetch_loop W options chunkList 0 [] []) as [[l|e|] log'];
    try reflexivity.
  assert (Hnone : forall ex L, requested (write_events W ex L) = []).
  { intros ex L. unfold write_events.
    destruct (Extras.write ex); [|done].
    destruct (Extras.file ex) as [file|]; [|done].
    destruct (fs_refuses W file); [done|].
    by destruct (fs_writeFile W file _). }
  assert (Hsame : forall ex,
            requested (snd (match write_refused W ex with
                            | Some e => (Rejects e, log')
                            | None =>
                                (Returns (parsed l ex),
                                 log' ++ write_events W ex (parsed l ex))
                            end)) = requested log').
  { intros ex. destruct (write_refused W ex); [done|].
    cbn [snd]. by rewrite requested_app, Hnone, app_nil_r. }
  by rewrite !Hsame.
Qed.

(** ** The end-to-end scenario *)

Lemma filter_bool_Permutation {A} (f : A -> bool) (l l' : list A) :
  l ≡ₚ l' -> List.filter f l ≡ₚ List.filter f l'.
Proof.
  induction 1 as [|x l l' _ IH|x y l|l l' l'' _ IH1 _ IH2]; cbn.
  - reflexivity.
  - destruct (f x); [by constructor | exact IH].
  - destruct (f x), (f y); try reflexivity. apply Permutation_swap.
  - by etrans.
Qed.

(** After simplify and sort, on entities with integer member counts, every
    record stands before records with at most as many members. *)
Lemma sort_after_simplify_members_ge json extras :
  Extras.simplify extras = true ->
  Extras.sort extras = true ->
  Forall (numeric "memberCount") json ->
  StronglySorted members_ge (parsed json extras).
Proof.
  intros Hsimp Hsort Hnum. unfold parsed. rewrite Hsimp, Hsort.
  assert (Hsorted : StronglySorted members_ge
                      (Array_sort compare (simplify json))).
  { apply Sorted_StronglySorted; [apply members_ge_trans|].
    apply Sorted_members_ge.
    - rewrite (Array_sort_perm compare (simplify json)).
      by apply simplify_numeric.
    - apply Array_sort_Sorted, compare_asym. }
  destruct (_ && _); [|exact Hsorted].
  by apply StronglySorted_filter_bool.
Qed.

(** C9: [Get(1500, {}, {simplify: true, sort: true, filter: true,
    filterSize: 100})] plans the chunks 1000 and 500 and issues exactly two
    requests, for 1000 records at offset 0 and for 500 at offset 1000.  When
    both succeed, the list returned holds, once each, the records
    [{_id: id, name: name, members: memberCount}] of exactly those entities
    of the two pages, the first page before the second, whose [memberCount]
    exceeds 100: every record returned has exactly the keys [_id], [name],
    [members] and more than 100 members; and, the member counts of the
    remote being integers, the list is descending in [members], records
    with equal [members] in the order of the concatenated pages. *)
Theorem get_1500_scenario
    (W : world) (res1 res2 : string) (list1 list2 : list object) :
  request W page_1000_0 = Returns res1 ->
  JSON_parse_results W res1 = Some list1 ->
  request W page_500_1000 = Returns res2 ->
  JSON_parse_results W res2 = Some list2 ->
  let record (e : object) : object :=
    {[ "_id" := get e "id"; "name" := get e "name";
       "members" := get e "memberCount" ]} in
  let kept : list object :=
    record <$> List.filter (fun e => js_gt (get e "memberCount") (VNum 100))
                 (list1 ++ list2) in
  exists out : list object,
    chunks 1500 default_split = Returns [1000; 500] /\
    getServers W 1500 Options.empty scenario_extras []
      = (Returns out, [Requested page_1000_0; Requested page_500_1000]) /\
    out ≡ₚ kept /\
    Forall (fun r => dom r = {[ "_id"; "name"; "members" ]} /\
                     js_gt (get r "members") (VNum 100) = true) out /\
    (Forall (numeric "memberCount") (list1 ++ list2) ->
     descending out /\
     (forall (i : nat) (x y : object),
        out !! i = Some x -> out !! S i = Some y ->
        exists m n, get x "members" = VNum m /\ get y "members" = VNum n /\
                    n <= m) /\
     Forall (fun r => exists n, get r "members" = VNum n /\ 100 < n) out /\
     (forall (e : object) (n : Z),
        e ∈ list1 ++ list2 -> get e "memberCount" = VNum n -> 100 < n ->
        record e ∈ out) /\
     forall v, List.filter (has_members v) out
               = List.filter (has_members v) kept).
Proof.
  intros Hreq1 Hres1 Hreq2 Hres2 record kept.
  set (T := VNum 100).
  set (out := List.filter (fun s => js_gt (get s "members") T)
                (Array_sort compare (simplify (list1 ++ list2)))).
  assert (Hkept : kept
            = List.filter (fun s => js_gt (get s "members") T)
                (simplify (list1 ++ list2))).
  { rewrite filter_simplify_commute, simplify_map. reflexivity. }
  assert (Hperm : out ≡ₚ kept).
  { rewrite Hkept. apply filter_bool_Permutation, Array_sort_perm. }
  assert (Hgt : Forall (fun r => js_gt (get r "members") T = true) out)
    by apply filter_members_gt.
  exists out. split; [reflexivity|]. split; [|split; [|split]].
  - unfold getServers.
    change (chunks 1500 default_split) with (Returns [1000; 500]).
    unfold bind at 1, lift at 1. unfold bind.
    rewrite fetch_loop_cons. cbv zeta.
    change (url (getUrl 1000 0 _ _)) with page_1000_0.
    rewrite Hreq1, Hres1. rewrite fetch_loop_cons. cbv zeta.
    change (url (getUrl 500 (0 + 1000) _ _)) with page_500_1000.
    rewrite Hreq2, Hres2. cbn [fetch_loop]. unfold ret at 1.
    cbn [app]. reflexivity.
  - exact Hperm.
  - apply Forall_and. split; [|exact Hgt].
    apply Forall_filter_bool.
    rewrite (Array_sort_perm compare (simplify (list1 ++ list2))).
    rewrite simplify_map. apply Forall_fmap, Forall_true.
    intros s. apply simplified_dom.
  - intros Hnum.
    pose proof (sort_after_simplify_members_ge (list1 ++ list2)
                  scenario_extras eq_refl eq_refl Hnum) as Hsorted.
    change (parsed (list1 ++ list2) scenario_extras) with out in Hsorted.
    assert (Hadj : forall (i : nat) (x y : object),
              out !! i = Some x -> out !! S i = Some y -> members_ge x y).
    { intros i x y Hx Hy. eapply (Sorted_lookup members_ge out);
        [by apply StronglySorted_Sorted | exact Hx | exact Hy]. }
    assert (Hnumout : Forall (numeric "members") out).
    { apply Forall_filter_bool.
      rewrite (Array_sort_perm compare (simplify (list1 ++ list2))).
      by apply simplify_numeric. }
    split; [|split; [|split; [|split]]].
    + intros i x y Hx Hy. apply members_ge_js_ge. by eapply Hadj.
    + exact Hadj.
    + rewrite Forall_forall in Hgt, Hnumout |- *. intros r Hr.
      destruct (Hnumout r Hr) as [n Hn]. exists n. split; [exact Hn|].
      specialize (Hgt r Hr). rewrite Hn in Hgt.
      unfold T, js_gt, js_lt in Hgt. cbn in Hgt. lia.
    + intros e n He Hn Hbig. rewrite Hperm. unfold kept.
      apply list_elem_of_fmap. exists e. split; [reflexivity|].
      apply elem_of_filter_bool. split; [exact He|].
      rewrite Hn. unfold js_gt, js_lt. cbn. lia.
    + intros v. rewrite Hkept. unfold out.
      rewrite filter_bool_comm, Array_sort_class
        by apply compare_same_members.
      apply filter_bool_comm.
Qed.

Lemma get_1500_scenario_witness :
  (request scenario_world page_1000_0 = Returns "first" /\
   JSON_parse_results scenario_world "first"
     = Some [small_server; large_server] /\
   request scenario_world page_500_1000 = Returns "second" /\
   JSON_parse_results scenario_world "second" = Some [mid_server]) /\
  let record (e : object) : object :=
    {[ "_id" := get e "id"; "name" := get e "name";
       "members" := get e "memberCount" ]} in
  let kept : list object :=
    record <$> List.filter (fun e => js_gt (get e "memberCount") (VNum 100))
                 ([small_server; large_server] ++ [mid_server]) in
  exists out : list object,
    chunks 1500 default_split = Returns [1000; 500] /\
    getServers scenario_world 1500 Options.empty scenario_extras []
      = (Returns out, [Requested page_1000_0; Requested page_500_1000]) /\
    out ≡ₚ kept /\
    Forall (fun r => dom r = {[ "_id"; "name"; "members" ]} /\
                     js_gt (get r "members") (VNum 100) = true) out /\
    (Forall (numeric "memberCount")
       ([small_server; large_server] ++ [mid_server]) ->
     descending out /\
     (forall (i : nat) (x y : object),
        out !! i = Some x -> out !! S i = Some y ->
        exists m n, get x "members" = VNum m /\ get y "members" = VNum n /\
                    n <= m) /\
     Forall (fun r => exists n, get r "members" = VNum n /\ 100 < n) out /\
     (forall (e : object) (n : Z),
        e ∈ [small_server; large_server] ++ [mid_server] ->
        get e "memberCount" = VNum n -> 100 < n ->
        record e ∈ out) /\
     forall v, List.filter (has_members v) out
               = List.filter (has_members v) kept).
Proof.
  split; [repeat split|].
  apply (get_1500_scenario scenario_world "first" "second"
           [small_server; large_server] [mid_server]);
    reflexivity.
Defined.

(** In the scenario world the call returns the records of the large and of
    the mid server, in that order, and not that of the small one. *)
Example get_1500_scenario_value :
  fst (getServers scenario_world 1500 Options.empty scenario_extras [])
    = Returns
        [ {[ "_id" := VStr "2"; "name" := VStr "large"; "members" := VNum 200 ]};
          {[ "_id" := VStr "3"; "name" := VStr "mid"; "members" := VNum 150 ]} ].
Proof. vm_compute. reflexivity. Qed.
